(** * dApp-staking reimbursement script: a shallow embedding of [src/index.ts]

    The script has three phases, all inside [main]:
    - the era scanner (the [do ... while] loop, lines 46-82),
    - the replay reconciler (the [for ... of blocks] loop, lines 99-150),
    - the delta aggregator (lines 152-236).

    The live chain and the chopsticks fork are external collaborators; they
    are taken as parameters ([Chain], [Backend]).  Numbers ([number]) and
    big integers ([bigint]) are both modelled as [Z]. *)

From Stdlib Require Import ZArith String Ascii Strings.Byte List Lia.
From Stdlib Require Import DecimalString DecimalZ DecimalPos.
From stdpp Require Import base option list gmap strings fin_maps.

Local Open Scope string_scope.
Local Open Scope list_scope.
Local Open Scope Z_scope.

(** ** Constants (lines 6-7) *)

Definition START_BLOCK : Z := 6216237.
Definition END_BLOCK : Z := 6285334.

(** ** Exceptions

    [ErrorMsg m] is [throw new Error(m)]; [TypeError] is what the engine
    raises when a property is read from, or a pattern destructures,
    [undefined] or [null]. *)

Inductive Error : Type :=
| ErrorMsg (msg : string)
| TypeError.

Inductive Result (A : Type) : Type :=
| Ok (a : A)
| Throw (e : Error).
Arguments Ok {A} a.
Arguments Throw {A} e.

#[export] Instance Result_ret : MRet Result := fun _ a => Ok a.
#[export] Instance Result_bind : MBind Result := fun _ _ f r =>
  match r with
  | Ok a => f a
  | Throw e => Throw e
  end.

Definition threw {A} (r : Result A) : Prop := exists e, r = Throw e.

(** ** [Map<number, V>]: key-unique, insertion-ordered

    [set] on a key already present replaces the value and keeps the key's
    position, as the ECMAScript [Map] does; iteration is the list order. *)

Module JsMap.
Definition t (V : Type) : Type := list (Z * V).

Definition empty {V} : t V := [].

Fixpoint get {V} (k : Z) (m : t V) : option V :=
  match m with
  | [] => None
  | (k', v) :: m' => if k =? k' then Some v else get k m'
  end.

Fixpoint set {V} (k : Z) (v : V) (m : t V) : t V :=
  match m with
  | [] => [(k, v)]
  | (k', v') :: m' =>
      if k =? k' then (k, v) :: m' else (k', v') :: set k v m'
  end.

Definition keys {V} (m : t V) : list Z := map fst m.
End JsMap.

(** ** Data read from the chain *)

(** One entry of [system.events().toHuman()]; only [event.section] and
    [event.method] are read. *)
Record EventRecord : Type := mkEvent {
  section : string;
  method : string
}.

(** [dappStaking.activeProtocolState()], after [toNumber()] on both fields. *)
Record ProtocolState : Type := mkProtocolState {
  era : Z;
  nextEraStart : Z
}.

(** One value of [dappStaking.integratedDApps.entries()] after [toJSON()];
    [rewardBeneficiary] is [null] ([None]) or an address. *)
Record DAppInfo : Type := mkDApp {
  id : Z;
  owner : string;
  rewardBeneficiary : option string
}.

(** [dappStaking.dAppTiers(era).toJSON()]: [dapps] lists
    [Object.entries(dapps)] in enumeration order, keys already passed
    through [Number]; [rewards] holds the value [hexToBigInt] gives for each
    entry of the [rewards] array. *)
Record DAppTierRewards : Type := mkTiers {
  dapps : list (Z * Z);
  rewards : list Z
}.

(** What can be queried at one block, on the live chain ([api.at]) or on a
    fork ([ctx.api]).  [dAppTiers e = None] stands for a [null] [toJSON()]. *)
Record StateView : Type := mkView {
  events : list EventRecord;
  dAppTiers : Z -> option DAppTierRewards;
  integratedDApps : list DAppInfo;
  activeProtocolState : ProtocolState;
  tierConfig : list byte;
  code : list byte
}.

(** [api.at(await blockHash(n))] *)
Definition Chain : Type := Z -> StateView.

(** [type Reward] (line 15) *)
Record Reward : Type := mkReward {
  reward : Z;
  tierId : Z;
  beneficiary : string
}.

(** ** Small pieces of the JavaScript semantics the script relies on *)

(** Truthiness of a [string | undefined] value. *)
Definition truthy (v : option string) : bool :=
  match v with
  | Some s => negb (String.eqb s "")
  | None => false
  end.

(** [a || b] with [a : string | null] and [b : string]. *)
Definition or_else (a : option string) (b : string) : string :=
  match a with
  | Some s => if truthy a then s else b
  | None => b
  end.

(** [rewards[tierId]] followed by [hexToBigInt]: an index outside the array
    reads [undefined], which [hexToBigInt] turns into [0n]. *)
Definition rewardAt (rs : list Z) (tier : Z) : Z :=
  if tier <? 0 then 0 else nth (Z.to_nat tier) rs 0.

(** [toHex()] of a byte string: [0x] followed by two digits per byte. *)
Definition hexDigit (n : N) : ascii :=
  ascii_of_N (if (n <? 10)%N then 48 + n else 87 + n)%N.

Fixpoint hexBytes (bs : list byte) : string :=
  match bs with
  | [] => EmptyString
  | b :: bs' =>
      let n := Byte.to_N b in
      String (hexDigit (n / 16)) (String (hexDigit (n mod 16)) (hexBytes bs'))
  end.

Definition toHex (bs : list byte) : string := String.append "0x" (hexBytes bs).

(** ** [ensureHasEvent] (lines 25-35) *)

Definition isNewEra (ev : EventRecord) : bool :=
  String.eqb (section ev) "dappStaking" && String.eqb (method ev) "NewEra".

Fixpoint ensureHasEvent (evs : list EventRecord) : Result unit :=
  match evs with
  | [] => Throw (ErrorMsg "Missing dappStaking::NewEra event")
  | ev :: evs' => if isNewEra ev then Ok tt else ensureHasEvent evs'
  end.

(** ** Reward extraction (lines 59-79 and, word for word, 126-146) *)

(** The [for ... of Object.entries(dapps)] loop over [dappsReward]. *)
Fixpoint buildRewards (directory : list DAppInfo) (rs : list Z)
    (entries : list (Z * Z)) (dappsReward : JsMap.t Reward)
    : Result (JsMap.t Reward) :=
  match entries with
  | [] => Ok dappsReward
  | (dappId, tier) :: rest =>
      let r := rewardAt rs tier in
      match find (fun x => id x =? dappId) directory with
      | None => Throw (ErrorMsg "dapp should exists")
      | Some dapp =>
          buildRewards directory rs rest
            (JsMap.set dappId
               {| reward := r;
                  tierId := tier;
                  beneficiary := or_else (rewardBeneficiary dapp) (owner dapp) |}
               dappsReward)
      end
  end.

Definition extractRewards (view : StateView) (e : Z) : Result (JsMap.t Reward) :=
  match dAppTiers view e with
  | None => Throw TypeError
  | Some t => buildRewards (integratedDApps view) (rewards t) (dapps t) JsMap.empty
  end.

(** ** Era scanner (lines 37-82)

    The loop is a [do ... while]: the body runs before the condition is
    looked at.  [fuel] bounds the number of iterations; [None] means the
    bound was reached with the loop still running. *)

Definition ScanOutput : Type := (JsMap.t Z * JsMap.t (JsMap.t Reward))%type.

(** One execution of the loop body: the updated maps and the refreshed
    [protocolState]. *)
Definition scanBody (chain : Chain) (protocolState : ProtocolState)
    (blocks : JsMap.t Z) (actualTiers : JsMap.t (JsMap.t Reward))
    : Result (ProtocolState * ScanOutput) :=
  let blockNo := nextEraStart protocolState in
  let e := era protocolState in
  let blocks := JsMap.set e blockNo blocks in
  let apiAt := chain blockNo in
  _ ← ensureHasEvent (events apiAt);
  dappsReward ← extractRewards apiAt e;
  let actualTiers := JsMap.set e dappsReward actualTiers in
  mret (activeProtocolState apiAt, (blocks, actualTiers)).

Fixpoint scanLoop (chain : Chain) (fuel : nat) (protocolState : ProtocolState)
    (blocks : JsMap.t Z) (actualTiers : JsMap.t (JsMap.t Reward))
    : option (Result ScanOutput) :=
  match fuel with
  | O => None
  | S fuel' =>
      match scanBody chain protocolState blocks actualTiers with
      | Throw e => Some (Throw e)
      | Ok (protocolState', (blocks', actualTiers')) =>
          if nextEraStart protocolState' <? END_BLOCK
          then scanLoop chain fuel' protocolState' blocks' actualTiers'
          else Some (Ok (blocks', actualTiers'))
      end
  end.

Definition scanner (chain : Chain) (fuel : nat) : option (Result ScanOutput) :=
  scanLoop chain fuel (activeProtocolState (chain START_BLOCK))
    JsMap.empty JsMap.empty.

(** ** Replay reconciler (lines 95-150) *)

(** The chopsticks fork: [setupContext], [ctx.chain.head.setWasm],
    [overrideStorage(ctx.chain, { dappStaking: { tierConfig } })],
    [ctx.dev.newBlock] and the queries through [ctx.api].  Calls on the
    collaborators are taken to return; the throws of the model are the ones
    the script raises itself. *)
Record Backend : Type := mkBackend {
  Fork : Type;
  setupContext : Z -> Fork;
  setWasm : string -> Fork -> Fork;
  overrideStorage : string -> Fork -> Fork;
  newBlock : Fork -> Fork;
  forkApi : Fork -> StateView
}.

(** The calls made on the fork, in program order.  A fork is named by the
    [blockNumber] it was set up at. *)
Inductive ForkEvent : Type :=
| EvSetup (blockNumber : Z)
| EvSetWasm (wasm : string)
| EvOverride (config : string)
| EvNewBlock
| EvReadTierConfig (hex : string)
| EvTeardown (blockNumber : Z).

(** Computations that log fork calls and may throw; a throw keeps the log
    written so far. *)
Record Eff (A : Type) : Type := mkEff {
  effLog : list ForkEvent;
  effResult : Result A
}.
Arguments mkEff {A} effLog effResult.
Arguments effLog {A} e.
Arguments effResult {A} e.

#[export] Instance Eff_ret : MRet Eff := fun _ a => mkEff [] (Ok a).
#[export] Instance Eff_bind : MBind Eff := fun _ _ f m =>
  match effResult m with
  | Ok a => mkEff (effLog m ++ effLog (f a)) (effResult (f a))
  | Throw e => mkEff (effLog m) (Throw e)
  end.

Definition call {A} (ev : ForkEvent) (a : A) : Eff A := mkEff [ev] (Ok a).
Definition lift {A} (r : Result A) : Eff A := mkEff [] r.

Section Replay.
Variable B : Backend.
Variable runtime : string.

(** One iteration of the [for] loop: the value read into [tierConfig] and
    the era's [dappsReward].  The one-second wait before [teardown]
    (line 147) has no counterpart here. *)
Definition replayEra (tierConfigVar : option string) (e block : Z)
    : Eff (string * JsMap.t Reward) :=
  ctx ← call (EvSetup (block - 1)) (setupContext B (block - 1));
  ctx ← call (EvSetWasm runtime) (setWasm B runtime ctx);
  ctx ← match tierConfigVar with
        | Some c =>
            if truthy tierConfigVar
            then call (EvOverride c) (overrideStorage B c ctx)
            else mret ctx
        | None => mret ctx
        end;
  ctx ← call EvNewBlock (newBlock B ctx);
  _ ← lift (ensureHasEvent (events (forkApi B ctx)));
  read ← (let hex := toHex (tierConfig (forkApi B ctx)) in
          call (EvReadTierConfig hex) hex);
  dappsReward ← lift (extractRewards (forkApi B ctx) e);
  _ ← call (EvTeardown (block - 1)) tt;
  mret (read, dappsReward).

(** The loop over [blocks]; the log is kept per iteration. *)
Fixpoint replayLoop (tierConfigVar : option string)
    (expectedTiers : JsMap.t (JsMap.t Reward)) (blocks : list (Z * Z))
    : list (list ForkEvent) * Result (JsMap.t (JsMap.t Reward)) :=
  match blocks with
  | [] => ([], Ok expectedTiers)
  | (e, block) :: rest =>
      let it := replayEra tierConfigVar e block in
      match effResult it with
      | Throw err => ([effLog it], Throw err)
      | Ok (read, dappsReward) =>
          let '(logs, r) :=
            replayLoop (Some read) (JsMap.set e dappsReward expectedTiers) rest in
          (effLog it :: logs, r)
      end
  end.

Definition reconciler (blocks : JsMap.t Z)
    : list (list ForkEvent) * Result (JsMap.t (JsMap.t Reward)) :=
  replayLoop None JsMap.empty blocks.
End Replay.

(** The fork on which the queries of one replay iteration run: set up one
    block before [block], runtime replaced, configuration overridden when
    the carried value is truthy, one block produced. *)
Definition producedFork (B : Backend) (runtime : string)
    (tierConfigVar : option string) (block : Z) : Fork B :=
  let ctx := setWasm B runtime (setupContext B (block - 1)) in
  newBlock B
    (match tierConfigVar with
     | Some c => if truthy tierConfigVar then overrideStorage B c ctx else ctx
     | None => ctx
     end).

(** The override an iteration applies, given the carried value. *)
Definition carriedOverride (tc : option string) : list ForkEvent :=
  match tc with
  | Some c => if truthy tc then [EvOverride c] else []
  | None => []
  end.

(** The calls of one iteration up to and including block production. *)
Definition prologue (runtime : string) (tierConfigVar : option string)
    (block : Z) : list ForkEvent :=
  [EvSetup (block - 1); EvSetWasm runtime]
  ++ carriedOverride tierConfigVar ++ [EvNewBlock].

(** ** Delta aggregator (lines 152-236) *)

Module Recon.
Record t : Type := mk {
  era : Z;
  dapp_id : Z;
  beneficiary : string;
  expected_tier : Z;
  actual_tier : Z;
  expected_reward : Z;
  actual_reward : Z;
  delta : Z
}.
End Recon.

(** Inner loop of the merge (lines 155-171): [finalResults.push] appends. *)
Fixpoint mergeDapps (actualTiers : JsMap.t (JsMap.t Reward)) (e : Z)
    (dapps : list (Z * Reward)) (finalResults : list Recon.t)
    : Result (list Recon.t) :=
  match dapps with
  | [] => Ok finalResults
  | (dapp_id, expected) :: rest =>
      match JsMap.get e actualTiers with
      | None => Throw TypeError
      | Some ofEra =>
          match JsMap.get dapp_id ofEra with
          | None => Throw TypeError
          | Some actual =>
              let delta := reward expected - reward actual in
              if delta <? 0
              then Throw (ErrorMsg "amount delta should not be negative")
              else
                mergeDapps actualTiers e rest
                  (finalResults ++
                   [ {| Recon.era := e;
                        Recon.dapp_id := dapp_id;
                        Recon.beneficiary := beneficiary expected;
                        Recon.expected_tier := tierId expected;
                        Recon.actual_tier := tierId actual;
                        Recon.expected_reward := reward expected;
                        Recon.actual_reward := reward actual;
                        Recon.delta := delta |} ])
          end
      end
  end.

(** Outer loop (lines 154-172). *)
Fixpoint mergeEras (actualTiers : JsMap.t (JsMap.t Reward))
    (expectedTiers : list (Z * JsMap.t Reward)) (finalResults : list Recon.t)
    : Result (list Recon.t) :=
  match expectedTiers with
  | [] => Ok finalResults
  | (e, dapps) :: rest =>
      finalResults' ← mergeDapps actualTiers e dapps finalResults;
      mergeEras actualTiers rest finalResults'
  end.

Definition merge (expectedTiers actualTiers : JsMap.t (JsMap.t Reward))
    : Result (list Recon.t) :=
  mergeEras actualTiers expectedTiers [].

(** The ledger (lines 212-218).  [acc] starts as the empty object literal;
    beneficiaries are account addresses, none of which is the name of a
    member of [Object.prototype], so [acc[k]] is [undefined] exactly when
    [k] has not been assigned.  [acc[k] || 0n] also replaces a stored [0n]
    (falsy) by [0n]. *)
Definition ledgerStep (acc : gmap string Z) (x : Recon.t) : gmap string Z :=
  let amount :=
    match acc !! Recon.beneficiary x with
    | Some v => if v =? 0 then 0 else v
    | None => 0
    end in
  <[Recon.beneficiary x := amount + Recon.delta x]> acc.

Definition reimburse (finalResults : list Recon.t) : gmap string Z :=
  fold_left ledgerStep
    (List.filter (fun x => negb (Recon.delta x =? 0)) finalResults) ∅.

(** [Object.values(reimburse).reduce((acc, amount) => acc + amount, 0n)] *)
Definition total (ledger : gmap string Z) : Z :=
  map_fold (fun _ amount acc => acc + amount) 0 ledger.

(** What is handed to [Bun.write]; the serialisation itself is left out. *)
Inductive Payload : Type :=
| Rows (finalResults : list Recon.t)
| Ledger (ledger : gmap string Z).

Definition FileWrite : Type := (string * Payload)%type.

(** The aggregator with its four writes and the figure it prints: the total
    in whole ASTR ([/ 10n ** 18n] truncates). *)
Definition aggregator (expectedTiers actualTiers : JsMap.t (JsMap.t Reward))
    : list FileWrite * Result Z :=
  match merge expectedTiers actualTiers with
  | Throw e => ([], Throw e)
  | Ok finalResults =>
      let ledger := reimburse finalResults in
      ([ ("./raw-result.json", Rows finalResults);
         ("./raw-result.csv", Rows finalResults);
         ("./reimburse.json", Ledger ledger);
         ("./reimburse.csv", Ledger ledger) ],
       Ok (Z.quot (total ledger) (10 ^ 18)))
  end.

(** ** [main] (lines 17-237) *)

Record Run : Type := mkRun {
  forkLog : list (list ForkEvent);
  written : list FileWrite;
  outcome : Result Z
}.

Definition main (chain : Chain) (B : Backend) (fuel : nat) : option Run :=
  match scanner chain fuel with
  | None => None
  | Some (Throw e) => Some (mkRun [] [] (Throw e))
  | Some (Ok (blocks, actualTiers)) =>
      let runtime := toHex (code (chain END_BLOCK)) in
      match reconciler B runtime blocks with
      | (logs, Throw e) => Some (mkRun logs [] (Throw e))
      | (logs, Ok expectedTiers) =>
          let '(files, r) := aggregator expectedTiers actualTiers in
          Some (mkRun logs files r)
      end
  end.

(** ** Vocabulary of the statements *)

(** The record built for recipient [dappId] of tier [tier] from its
    directory entry. *)
Definition recordOf (rs : list Z) (tier : Z) (dapp : DAppInfo) : Reward :=
  {| reward := rewardAt rs tier;
     tierId := tier;
     beneficiary := or_else (rewardBeneficiary dapp) (owner dapp) |}.

(** [(e, r)] is visited by the merge loops: [e] is an era of
    [expectedTiers] and [r] a recipient of that era's set. *)
Definition inExpected (expectedTiers : JsMap.t (JsMap.t Reward)) (e r : Z)
    : Prop :=
  exists dapps x, In (e, dapps) expectedTiers /\ In (r, x) dapps.

(** [actualTiers.get(e).get(r)] is defined. *)
Definition inActual (actualTiers : JsMap.t (JsMap.t Reward)) (e r : Z)
    : Prop :=
  exists ofEra a,
    JsMap.get e actualTiers = Some ofEra /\ JsMap.get r ofEra = Some a.

(** [actualTiers.get(e)?.get(r)]: the record the merge reads for a visit,
    if there is one. *)
Definition actualOf (actualTiers : JsMap.t (JsMap.t Reward)) (e r : Z)
    : option Reward :=
  match JsMap.get e actualTiers with
  | Some ofEra => JsMap.get r ofEra
  | None => None
  end.

Definition hasRow (rows : list Recon.t) (e r : Z) : Prop :=
  exists x, In x rows /\ Recon.era x = e /\ Recon.dapp_id x = r.

(** The (era, recipient, expected record) triples in the order the merge
    loops visit them. *)
Definition visits (expectedTiers : JsMap.t (JsMap.t Reward))
    : list (Z * Z * Reward) :=
  flat_map (fun '(e, dapps) => map (fun '(r, x) => (e, r, x)) dapps)
    expectedTiers.

(** [row] is the reconciliation row of the visit [(e, r, x)]. *)
Definition rowFor (actualTiers : JsMap.t (JsMap.t Reward))
    (v : Z * Z * Reward) (row : Recon.t) : Prop :=
  let '(e, r, x) := v in
  exists ofEra a,
    JsMap.get e actualTiers = Some ofEra /\ JsMap.get r ofEra = Some a
    /\ reward a <= reward x
    /\ row = {| Recon.era := e; Recon.dapp_id := r;
                Recon.beneficiary := beneficiary x;
                Recon.expected_tier := tierId x; Recon.actual_tier := tierId a;
                Recon.expected_reward := reward x;
                Recon.actual_reward := reward a;
                Recon.delta := reward x - reward a |}.

(** Sum of the deltas of the rows paid to [b]. *)
Fixpoint deltaSum (b : string) (rows : list Recon.t) : Z :=
  match rows with
  | [] => 0
  | x :: rows' =>
      if String.eqb (Recon.beneficiary x) b
      then Recon.delta x + deltaSum b rows'
      else deltaSum b rows'
  end.

(** Rows paid to [b]; rows that enter the ledger. *)
Definition paidTo (b : string) (x : Recon.t) : bool :=
  String.eqb (Recon.beneficiary x) b.

Definition nonZero (x : Recon.t) : bool := negb (Recon.delta x =? 0).




Definition isSetup (ev : ForkEvent) : bool :=
  match ev with EvSetup _ => true | _ => false end.

Definition isTeardown (ev : ForkEvent) : bool :=
  match ev with EvTeardown _ => true | _ => false end.

Definition setups (l : list ForkEvent) : nat := length (List.filter isSetup l).
Definition teardowns (l : list ForkEvent) : nat :=
  length (List.filter isTeardown l).

(** An iteration that acquired fork [n] first and released it last, with no
    other acquisition or release in between; and one that acquired a fork
    and never released it. *)
Definition closedIteration (l : list ForkEvent) : Prop :=
  exists n body,
    l = EvSetup n :: body ++ [EvTeardown n]
    /\ setups body = 0%nat /\ teardowns body = 0%nat.

Definition openIteration (l : list ForkEvent) : Prop :=
  exists n body,
    l = EvSetup n :: body /\ setups body = 0%nat /\ teardowns body = 0%nat.

(** ** Fixtures *)

Module Fixture.
Definition newEra : EventRecord := mkEvent "dappStaking" "NewEra".
Definition other : EventRecord := mkEvent "system" "ExtrinsicSuccess".

Definition A : string := "addrA".
Definition B : string := "addrB".
Definition C : string := "addrC".

Definition directory : list DAppInfo :=
  [ mkDApp 1 "ownerA" (Some A); mkDApp 2 B None; mkDApp 3 C (Some "") ].

(** A tier table per era: on the live chain and as recomputed. *)
Definition actualTable (e : Z) : option DAppTierRewards :=
  if e =? 1 then Some (mkTiers [(1, 1); (2, 0)] [200; 100])
  else if e =? 2 then Some (mkTiers [(1, 0)] [50])
  else if e =? 3 then Some (mkTiers [(3, 0)] [10])
  else None.

Definition expectedTable (e : Z) : option DAppTierRewards :=
  if e =? 1 then Some (mkTiers [(1, 1); (2, 0)] [200; 150])
  else if e =? 2 then Some (mkTiers [(1, 0)] [50])
  else if e =? 3 then Some (mkTiers [(3, 0)] [40])
  else None.

(** Era [k] (1, 2, 3) is bumped at block [START_BLOCK + 20000 * k]; the
    boundary after the third lies past [END_BLOCK]. *)
Definition boundary (k : Z) : Z := START_BLOCK + 20000 * k.

Definition eraAt (b : Z) : Z := (b - START_BLOCK) / 20000.

Definition chain : Chain := fun b =>
  {| events := [other; newEra];
     dAppTiers := actualTable;
     integratedDApps := directory;
     activeProtocolState :=
       {| era := eraAt b + 1; nextEraStart := boundary (eraAt b + 1) |};
     tierConfig := [];
     code := ["c"%byte; "0"%byte; "d"%byte; "e"%byte] |}.

(** A fork is the block it was set up at, the override it received and
    whether the block was produced; the configuration read back after
    era [k] is the single byte [k]. *)
Record fork : Type := mkFork {
  at_block : Z;
  overridden : option string;
  produced : bool
}.

Definition configAfter (b : Z) : list byte :=
  match Byte.of_N (Z.to_N (eraAt (b + 1))) with
  | Some x => [x]
  | None => []
  end.

Definition backendWith (evs : Z -> list EventRecord) : Backend :=
  {| Fork := fork;
     setupContext := fun n => mkFork n None false;
     setWasm := fun _ f => f;
     overrideStorage := fun c f => mkFork (at_block f) (Some c) (produced f);
     newBlock := fun f => mkFork (at_block f) (overridden f) true;
     forkApi := fun f =>
       {| events := evs (at_block f + 1);
          dAppTiers := expectedTable;
          integratedDApps := directory;
          activeProtocolState :=
            {| era := eraAt (at_block f + 1) + 1;
               nextEraStart := boundary (eraAt (at_block f + 1) + 1) |};
          tierConfig := configAfter (at_block f);
          code := [] |} |}.

Definition backend : Backend := backendWith (fun _ => [other; newEra]).

(** The same fork, except that replaying era 2 emits no era-advance
    event. *)
Definition failingBackend : Backend :=
  backendWith (fun b => if b =? boundary 2 then [other] else [newEra]).


(** A chain whose first boundary already lies past [END_BLOCK]. *)
Definition lateChain : Chain := fun b =>
  {| events := [newEra];
     dAppTiers := fun _ => Some (mkTiers [(2, 0)] [7]);
     integratedDApps := directory;
     activeProtocolState := {| era := 9; nextEraStart := END_BLOCK + 5 + b |};
     tierConfig := [];
     code := [] |}.

Definition rw (amount : Z) (b : string) : Reward := mkReward amount 0 b.

(** The three-era reward sets of the end-to-end scenario. *)
Definition actualTiers : JsMap.t (JsMap.t Reward) :=
  [ (1, [(1, rw 100 A); (2, rw 200 B)]); (2, [(1, rw 50 A)]);
    (3, [(3, rw 10 C)]) ].

Definition expectedTiers : JsMap.t (JsMap.t Reward) :=
  [ (1, [(1, rw 150 A); (2, rw 200 B)]); (2, [(1, rw 50 A)]);
    (3, [(3, rw 40 C)]) ].

(** Era 2 recomputed below what was paid. *)
Definition loweredTiers : JsMap.t (JsMap.t Reward) :=
  [ (1, [(1, rw 150 A); (2, rw 200 B)]); (2, [(1, rw 40 A)]);
    (3, [(3, rw 10 C)]) ].

(** Recipient 2 of era 1 dropped from the recomputed set. *)
Definition narrowedTiers : JsMap.t (JsMap.t Reward) :=
  [ (1, [(1, rw 150 A)]); (2, [(1, rw 50 A)]); (3, [(3, rw 40 C)]) ].
(** A view whose tier table names recipient 5, which the directory does
    not hold. *)
Definition orphanView : StateView :=
  {| events := [newEra];
     dAppTiers := fun _ => Some (mkTiers [(1, 0); (5, 0)] [7]);
     integratedDApps := directory;
     activeProtocolState := {| era := 2; nextEraStart := boundary 2 |};
     tierConfig := [];
     code := [] |}.


(** The rows of the end-to-end scenario. *)
Definition row (e r : Z) (b : string) (expected actual : Z) : Recon.t :=
  {| Recon.era := e; Recon.dapp_id := r; Recon.beneficiary := b;
     Recon.expected_tier := 0; Recon.actual_tier := 0;
     Recon.expected_reward := expected; Recon.actual_reward := actual;
     Recon.delta := expected - actual |}.

Definition finalResults : list Recon.t :=
  [ row 1 1 A 150 100; row 1 2 B 200 200; row 2 1 A 50 50;
    row 3 3 C 40 10 ].
End Fixture.

(** ** Vocabulary of the further properties *)

(** Sum of the deltas of all rows. *)
Definition sumDeltas (rows : list Recon.t) : Z :=
  fold_right (fun x s => Recon.delta x + s) 0 rows.

(** The four files of a successful run, in the order they are written. *)
Definition fourFiles (rows : list Recon.t) : list FileWrite :=
  [ ("./raw-result.json", Rows rows);
    ("./raw-result.csv", Rows rows);
    ("./reimburse.json", Ledger (reimburse rows));
    ("./reimburse.csv", Ledger (reimburse rows)) ].

(** The entry [q] of [actualTiers] belongs to the entry [p] of [blocks]:
    same era, the block of [p] carries the era-advance event, and the set
    of [q] is the one extracted at that block. *)
Definition recordedAt (chain : Chain) (p : Z * Z) (q : Z * JsMap.t Reward)
    : Prop :=
  fst q = fst p
  /\ ensureHasEvent (events (chain (snd p))) = Ok tt
  /\ extractRewards (chain (snd p)) (fst p) = Ok (snd q).

(** The set [dr] stored for era [e] was extracted from a fork produced for
    a block that [blocks] gives for [e], after the era-advance check
    passed there. *)
Definition replayedFrom (B : Backend) (runtime : string)
    (blocks : list (Z * Z)) (p : Z * JsMap.t Reward) : Prop :=
  exists block tc,
    In (fst p, block) blocks
    /\ ensureHasEvent
         (events (forkApi B (producedFork B runtime tc block))) = Ok tt
    /\ extractRewards (forkApi B (producedFork B runtime tc block)) (fst p)
       = Ok (snd p).

(** Key list of a map after [set] of key [k]. *)
Definition addKey (ks : list Z) (k : Z) : list Z :=
  if existsb (Z.eqb k) ks then ks else ks ++ [k].

(** The entry [q] of a reward set was built from the entry [p] of the tier
    table: same recipient, and the record of its tier and directory entry. *)
Definition builtFrom (directory : list DAppInfo) (rs : list Z)
    (p : Z * Z) (q : Z * Reward) : Prop :=
  fst q = fst p
  /\ exists dapp,
       find (fun x => id x =? fst p) directory = Some dapp
       /\ snd q = recordOf rs (snd p) dapp.

(** ** Serialisation (lines 12-13, 179-210, 222-229) and exit (239-244) *)

(** [String(v)] of a bigint, and of a number that holds an integer of the
    size of an era, an identifier or a tier: an optional minus sign and the
    decimal digits. *)
Definition decimal (n : Z) : string := NilZero.string_of_int (Z.to_int n).

(** Reading a decimal numeral back. *)
Definition parseDecimal (s : string) : option Z :=
  option_map Z.of_int (NilZero.int_of_string s).

(** The values [replacer] can be handed; objects and arrays keep their
    parts. *)
#[warnings="-register-all"]
Inductive JsValue : Type :=
| JsNull
| JsBool (b : bool)
| JsNumber (n : Z)
| JsBigInt (n : Z)
| JsString (s : string)
| JsArray (items : list JsValue)
| JsObject (props : list (string * JsValue)).

(** [replacer] (lines 12-13) *)
Definition replacer (_k : string) (v : JsValue) : JsValue :=
  match v with
  | JsBigInt n => JsString (decimal n)
  | _ => v
  end.

Definition newline : ascii := "010"%char.
Definition comma : ascii := ","%char.

(** [xs.join(sep)] on strings *)
Fixpoint join (sep : ascii) (xs : list string) : string :=
  match xs with
  | [] => EmptyString
  | x :: rest =>
      match rest with
      | [] => x
      | _ => String.append x (String sep (join sep rest))
      end
  end.

(** The detailed table (lines 180-210). *)
Definition rawHeader : string :=
  "era,dapp_id,beneficiary,expected_tier,actual_tier,expected_reward,actual_reward,delta".

Definition rawLine (x : Recon.t) : string :=
  join comma
    [ decimal (Recon.era x); decimal (Recon.dapp_id x); Recon.beneficiary x;
      decimal (Recon.expected_tier x); decimal (Recon.actual_tier x);
      decimal (Recon.expected_reward x); decimal (Recon.actual_reward x);
      decimal (Recon.delta x) ].

Definition rawCsv (finalResults : list Recon.t) : string :=
  join newline (rawHeader :: map rawLine finalResults).

(** The ledger as the object it is: own properties in the order they were
    first assigned (no beneficiary is an array index, which would be listed
    first).  [set] keeps the place of a key that is already there. *)
Module JsObject.
Definition t : Type := list (string * Z).

Fixpoint get (k : string) (o : t) : option Z :=
  match o with
  | [] => None
  | (k', v) :: o' => if String.eqb k k' then Some v else get k o'
  end.

Fixpoint set (k : string) (v : Z) (o : t) : t :=
  match o with
  | [] => [(k, v)]
  | (k', v') :: o' =>
      if String.eqb k k' then (k, v) :: o' else (k', v') :: set k v o'
  end.
End JsObject.

(** The reducer of lines 214-217 on the ordered object, and
    [Object.entries(reimburse)]. *)
Definition entriesStep (acc : JsObject.t) (x : Recon.t) : JsObject.t :=
  let amount :=
    match JsObject.get (Recon.beneficiary x) acc with
    | Some v => if v =? 0 then 0 else v
    | None => 0
    end in
  JsObject.set (Recon.beneficiary x) (amount + Recon.delta x) acc.

Definition reimburseEntries (finalResults : list Recon.t) : JsObject.t :=
  fold_left entriesStep
    (List.filter (fun x => negb (Recon.delta x =? 0)) finalResults) [].

(** The ledger table (lines 223-229). *)
Definition ledgerLine (entry : string * Z) : string :=
  join comma [fst entry; decimal (snd entry)].

Definition reimburseCsv (finalResults : list Recon.t) : string :=
  join newline ("beneficiary,amount" :: map ledgerLine (reimburseEntries finalResults)).

(** [main().then(() => process.exit()).catch(... process.exit(1))] *)
Definition exitStatus (run : Run) : Z :=
  match outcome run with
  | Ok _ => 0
  | Throw _ => 1
  end.

(** *** Reading the tables back *)

Fixpoint hasChar (c : ascii) (s : string) : bool :=
  match s with
  | EmptyString => false
  | String a s' => Ascii.eqb a c || hasChar c s'
  end.

Fixpoint splitOn (c : ascii) (s : string) : list string :=
  match s with
  | EmptyString => [EmptyString]
  | String a s' =>
      if Ascii.eqb a c then EmptyString :: splitOn c s'
      else
        match splitOn c s' with
        | [] => [String a EmptyString]
        | x :: xs => String a x :: xs
        end
  end.

Definition parseRawLine (line : string) : option Recon.t :=
  match splitOn comma line with
  | [f1; f2; f3; f4; f5; f6; f7; f8] =>
      e ← parseDecimal f1;
      r ← parseDecimal f2;
      et ← parseDecimal f4;
      at' ← parseDecimal f5;
      er ← parseDecimal f6;
      ar ← parseDecimal f7;
      d ← parseDecimal f8;
      Some {| Recon.era := e; Recon.dapp_id := r; Recon.beneficiary := f3;
              Recon.expected_tier := et; Recon.actual_tier := at';
              Recon.expected_reward := er; Recon.actual_reward := ar;
              Recon.delta := d |}
  | _ => None
  end.

Definition parseRawCsv (text : string) : option (list Recon.t) :=
  match splitOn newline text with
  | header :: lines =>
      if String.eqb header rawHeader then mapM parseRawLine lines else None
  | [] => None
  end.

(** A text without comma and without line break. *)
Definition plainField (s : string) : Prop :=
  hasChar comma s = false /\ hasChar newline s = false.

(** First occurrences, in order. *)
Fixpoint firstSeen (l : list string) : list string :=
  match l with
  | [] => []
  | x :: l' => x :: List.filter (fun y => negb (String.eqb y x)) (firstSeen l')
  end.

(** *** [JSON.stringify(value, replacer, 2)] (lines 174-177 and 220)

    Only the walk is modelled, not the text: every value is first handed
    to the replacer under its key (array items under their index), a
    bigint that is left after that is a [TypeError], and the parts of an
    array or object are walked in order.  [None]: the value is nested
    deeper than [fuel]. *)
Fixpoint walkAll (walk : string -> JsValue -> option (Result JsValue))
    (props : list (string * JsValue))
    : option (Result (list (string * JsValue))) :=
  match props with
  | [] => Some (Ok [])
  | (k, v) :: rest =>
      match walk k v with
      | None => None
      | Some (Throw e) => Some (Throw e)
      | Some (Ok w) =>
          match walkAll walk rest with
          | None => None
          | Some (Throw e) => Some (Throw e)
          | Some (Ok ws) => Some (Ok ((k, w) :: ws))
          end
      end
  end.

Fixpoint indexed (i : Z) (items : list JsValue) : list (string * JsValue) :=
  match items with
  | [] => []
  | v :: rest => (decimal i, v) :: indexed (i + 1) rest
  end.

Fixpoint stringifyWalk (fuel : nat) (rep : string -> JsValue -> JsValue)
    (key : string) (v : JsValue) : option (Result JsValue) :=
  match fuel with
  | O => None
  | S fuel' =>
      match rep key v with
      | JsBigInt _ => Some (Throw TypeError)
      | JsArray items =>
          match walkAll (stringifyWalk fuel' rep) (indexed 0 items) with
          | None => None
          | Some (Throw e) => Some (Throw e)
          | Some (Ok ws) => Some (Ok (JsArray (map snd ws)))
          end
      | JsObject props =>
          match walkAll (stringifyWalk fuel' rep) props with
          | None => None
          | Some (Throw e) => Some (Throw e)
          | Some (Ok ws) => Some (Ok (JsObject ws))
          end
      | w => Some (Ok w)
      end
  end.

(** The object literal of lines 161-170, and the two values written as
    JSON. *)
Definition rowValue (x : Recon.t) : JsValue :=
  JsObject
    [ ("era", JsNumber (Recon.era x));
      ("dapp_id", JsNumber (Recon.dapp_id x));
      ("beneficiary", JsString (Recon.beneficiary x));
      ("expected_tier", JsNumber (Recon.expected_tier x));
      ("actual_tier", JsNumber (Recon.actual_tier x));
      ("expected_reward", JsBigInt (Recon.expected_reward x));
      ("actual_reward", JsBigInt (Recon.actual_reward x));
      ("delta", JsBigInt (Recon.delta x)) ].

Definition finalResultsValue (finalResults : list Recon.t) : JsValue :=
  JsArray (map rowValue finalResults).

Definition reimburseValue (finalResults : list Recon.t) : JsValue :=
  JsObject (map (fun entry => (fst entry, JsBigInt (snd entry)))
              (reimburseEntries finalResults)).

(** A row, respectively the ledger, with the big integers as decimal
    numerals. *)
Definition rowWritten (x : Recon.t) : JsValue :=
  JsObject
    [ ("era", JsNumber (Recon.era x));
      ("dapp_id", JsNumber (Recon.dapp_id x));
      ("beneficiary", JsString (Recon.beneficiary x));
      ("expected_tier", JsNumber (Recon.expected_tier x));
      ("actual_tier", JsNumber (Recon.actual_tier x));
      ("expected_reward", JsString (decimal (Recon.expected_reward x)));
      ("actual_reward", JsString (decimal (Recon.actual_reward x)));
      ("delta", JsString (decimal (Recon.delta x))) ].

Definition reimburseWritten (finalResults : list Recon.t) : JsValue :=
  JsObject (map (fun entry => (fst entry, JsString (decimal (snd entry))))
              (reimburseEntries finalResults)).

(** * Properties *)

(** ** Results and the event check *)

Lemma bind_Ok {A C} (r : Result A) (f : A -> Result C) (c : C) :
  r ≫= f = Ok c -> exists a, r = Ok a /\ f a = Ok c.
Proof. destruct r as [a|e]; simpl; [eauto | discriminate]. Qed.

Lemma bind_Throw {A C} (r : Result A) (f : A -> Result C) (e : Error) :
  r = Throw e -> r ≫= f = Throw e.
Proof. intros ->. reflexivity. Qed.

Lemma isNewEra_true (ev : EventRecord) :
  isNewEra ev = true <-> section ev = "dappStaking" /\ method ev = "NewEra".
Proof.
  unfold isNewEra. rewrite andb_true_iff, !String.eqb_eq. reflexivity.
Qed.

Lemma ensureHasEvent_existsb (evs : list EventRecord) :
  ensureHasEvent evs =
    if existsb isNewEra evs then Ok tt
    else Throw (ErrorMsg "Missing dappStaking::NewEra event").
Proof.
  induction evs as [|ev evs IH]; simpl; [reflexivity|].
  destruct (isNewEra ev); simpl; [reflexivity | exact IH].
Qed.

(** [replayEra] with its binds unfolded. *)
Lemma replayEra_unfold (B : Backend) (runtime : string)
    (tc : option string) (e block : Z) :
  replayEra B runtime tc e block =
    let view := forkApi B (producedFork B runtime tc block) in
    let hex := toHex (tierConfig view) in
    match ensureHasEvent (events view) with
    | Throw err => mkEff (prologue runtime tc block) (Throw err)
    | Ok _ =>
        match extractRewards view e with
        | Throw err =>
            mkEff (prologue runtime tc block ++ [EvReadTierConfig hex]) (Throw err)
        | Ok dappsReward =>
            mkEff (prologue runtime tc block
                   ++ [EvReadTierConfig hex; EvTeardown (block - 1)])
                  (Ok (hex, dappsReward))
        end
    end.
Proof.
  unfold replayEra, producedFork, prologue, call, lift, mbind, mret,
    Eff_bind, Eff_ret.
  destruct tc as [c|]; simpl.
  - destruct (negb (c =? "")%string); simpl;
      repeat (match goal with |- context [match ?r with _ => _ end] =>
                destruct r eqn:?; simpl end; try reflexivity).
  - repeat (match goal with |- context [match ?r with _ => _ end] =>
              destruct r eqn:?; simpl end; try reflexivity).
Qed.

Lemma replayLoop_cons (B : Backend) (runtime : string) (tc : option string)
    (expectedTiers : JsMap.t (JsMap.t Reward)) (e block : Z)
    (rest : list (Z * Z)) :
  replayLoop B runtime tc expectedTiers ((e, block) :: rest) =
    let it := replayEra B runtime tc e block in
    match effResult it with
    | Throw err => ([effLog it], Throw err)
    | Ok (read, dappsReward) =>
        let '(logs, r) :=
          replayLoop B runtime (Some read)
            (JsMap.set e dappsReward expectedTiers) rest in
        (effLog it :: logs, r)
    end.
Proof. reflexivity. Qed.

(** C7.  [ensureHasEvent] returns normally exactly when the list holds an
    event with section [dappStaking] and method [NewEra]; in every other
    case it throws [Missing dappStaking::NewEra event], and that throw ends
    the scan loop, respectively the replay loop, at the iteration where it
    happens. *)
Theorem ensureHasEvent_spec (evs : list EventRecord) :
  (ensureHasEvent evs = Ok tt <->
     exists ev, In ev evs /\ section ev = "dappStaking" /\ method ev = "NewEra")
  /\ (ensureHasEvent evs <> Ok tt ->
      ensureHasEvent evs = Throw (ErrorMsg "Missing dappStaking::NewEra event"))
  /\ (forall err, ensureHasEvent evs = Throw err ->
      (forall chain fuel st blocks actualTiers,
          events (chain (nextEraStart st)) = evs ->
          scanLoop chain (S fuel) st blocks actualTiers = Some (Throw err))
      /\ (forall B runtime tc expectedTiers e block rest,
          events (forkApi B (producedFork B runtime tc block)) = evs ->
          snd (replayLoop B runtime tc expectedTiers ((e, block) :: rest))
            = Throw err)).
Proof.
  rewrite ensureHasEvent_existsb.
  split; [|split].
  - destruct (existsb isNewEra evs) eqn:Hex.
    + split; [intros _ | reflexivity].
      apply existsb_exists in Hex as [ev [Hin Hev]].
      exists ev. split; [exact Hin | by apply isNewEra_true].
    + split; [discriminate|].
      intros [ev [Hin Hev]].
      assert (existsb isNewEra evs = true) as Habs
        by (apply existsb_exists; exists ev; split;
            [exact Hin | by apply isNewEra_true]).
      congruence.
  - destruct (existsb isNewEra evs); [congruence | reflexivity].
  - intros err Herr. rewrite <- ensureHasEvent_existsb in Herr. split.
    + intros chain fuel st blocks actualTiers Hev. simpl.
      unfold scanBody. rewrite Hev, Herr. reflexivity.
    + intros B runtime tc expectedTiers e block rest Hev.
      rewrite replayLoop_cons, replayEra_unfold. cbv zeta.
      rewrite Hev, Herr. reflexivity.
Qed.

(** ** Sanity checks of the model on the fixtures *)

Example scan_fixture :
  scanner Fixture.chain 5 =
    Some (Ok ([ (1, Fixture.boundary 1); (2, Fixture.boundary 2);
                (3, Fixture.boundary 3) ],
              [ (1, [(1, mkReward 100 1 Fixture.A); (2, mkReward 200 0 Fixture.B)]);
                (2, [(1, mkReward 50 0 Fixture.A)]);
                (3, [(3, mkReward 10 0 Fixture.C)]) ])).
Proof. vm_compute. reflexivity. Qed.

Example end_to_end :
  exists run,
    main Fixture.chain Fixture.backend 5 = Some run
    /\ outcome run = Ok 0
    /\ map (fun x => (Recon.era x, Recon.dapp_id x, Recon.delta x))
         (match written run with
          | (_, Rows rows) :: _ => rows
          | _ => []
          end) = [(1, 1, 50); (1, 2, 0); (2, 1, 0); (3, 3, 30)].
Proof. eexists. split; [vm_compute; reflexivity|]. split; reflexivity. Qed.

(** ** The merge loops *)

Lemma Forall2_In_l {X Y} (P : X -> Y -> Prop) (l : list X) (k : list Y) (x : X) :
  Forall2 P l k -> In x l -> exists y, In y k /\ P x y.
Proof.
  induction 1 as [|x' y' l k Hxy _ IH]; intros Hin; [destruct Hin|].
  destruct Hin as [->|Hin]; [exists y'; split; [by left | exact Hxy]|].
  destruct (IH Hin) as [y [Hy HP]]. exists y. split; [by right | exact HP].
Qed.

Lemma Forall2_In_r {X Y} (P : X -> Y -> Prop) (l : list X) (k : list Y) (y : Y) :
  Forall2 P l k -> In y k -> exists x, In x l /\ P x y.
Proof.
  induction 1 as [|x' y' l k Hxy _ IH]; intros Hin; [destruct Hin|].
  destruct Hin as [->|Hin]; [exists x'; split; [by left | exact Hxy]|].
  destruct (IH Hin) as [x [Hx HP]]. exists x. split; [by right | exact HP].
Qed.

Lemma mergeDapps_Ok (actualTiers : JsMap.t (JsMap.t Reward)) (e : Z)
    (dapps : list (Z * Reward)) :
  forall acc rows,
    mergeDapps actualTiers e dapps acc = Ok rows ->
    exists new,
      rows = acc ++ new
      /\ Forall2 (rowFor actualTiers) (map (fun '(r, x) => (e, r, x)) dapps) new.
Proof.
  induction dapps as [|[r x] dapps IH]; intros acc rows H; simpl in H.
  - injection H as <-. exists []. split; [by rewrite app_nil_r | constructor].
  - destruct (JsMap.get e actualTiers) as [ofEra|] eqn:Hera; [|discriminate].
    destruct (JsMap.get r ofEra) as [a|] eqn:Hrec; [|discriminate].
    destruct (reward x - reward a <? 0) eqn:Hneg; [discriminate|].
    apply Z.ltb_ge in Hneg.
    apply IH in H as [new [-> Hnew]].
    eexists (_ :: new). split; [by rewrite <- app_assoc|].
    simpl. constructor; [|exact Hnew].
    exists ofEra, a. repeat split; [exact Hera | exact Hrec | lia].
Qed.

Lemma mergeEras_Ok (actualTiers : JsMap.t (JsMap.t Reward))
    (expectedTiers : list (Z * JsMap.t Reward)) :
  forall acc rows,
    mergeEras actualTiers expectedTiers acc = Ok rows ->
    exists new,
      rows = acc ++ new
      /\ Forall2 (rowFor actualTiers) (visits expectedTiers) new.
Proof.
  induction expectedTiers as [|[e dapps] rest IH]; intros acc rows H;
    simpl in H.
  - injection H as <-. exists []. split; [by rewrite app_nil_r | constructor].
  - apply bind_Ok in H as [mid [Hd Hr]].
    apply mergeDapps_Ok in Hd as [new1 [-> H1]].
    apply IH in Hr as [new2 [-> H2]].
    exists (new1 ++ new2). split; [by rewrite <- app_assoc|].
    simpl. by apply Forall2_app.
Qed.

Lemma merge_Ok (expectedTiers actualTiers : JsMap.t (JsMap.t Reward))
    (rows : list Recon.t) :
  merge expectedTiers actualTiers = Ok rows ->
  Forall2 (rowFor actualTiers) (visits expectedTiers) rows.
Proof.
  intros H. apply mergeEras_Ok in H as [new [-> H]]. exact H.
Qed.

Lemma in_visits (expectedTiers : JsMap.t (JsMap.t Reward)) (e r : Z) :
  inExpected expectedTiers e r <-> exists x, In (e, r, x) (visits expectedTiers).
Proof.
  unfold inExpected, visits. split.
  - intros [dapps [x [He Hr]]]. exists x.
    apply in_flat_map. exists (e, dapps). split; [exact He|].
    apply in_map_iff. exists (r, x). split; [reflexivity | exact Hr].
  - intros [x H]. apply in_flat_map in H as [[e' dapps] [He H]].
    apply in_map_iff in H as [[r' x'] [Heq Hr]].
    injection Heq as -> -> ->. exists dapps, x. split; assumption.
Qed.

Lemma rowFor_keys (actualTiers : JsMap.t (JsMap.t Reward)) (e r : Z)
    (x : Reward) (row : Recon.t) :
  rowFor actualTiers (e, r, x) row ->
  Recon.era row = e /\ Recon.dapp_id row = r /\ Recon.beneficiary row = beneficiary x
  /\ 0 <= Recon.delta row /\ inActual actualTiers e r.
Proof.
  intros [ofEra [a [He [Hr [Hle ->]]]]]. simpl.
  repeat split; try lia. exists ofEra, a. split; assumption.
Qed.

(** A run never writes a file and then fails: the four writes come after
    the last statement that can throw. *)
Lemma aggregator_Throw (expectedTiers actualTiers : JsMap.t (JsMap.t Reward)) :
  threw (merge expectedTiers actualTiers) ->
  fst (aggregator expectedTiers actualTiers) = []
  /\ threw (snd (aggregator expectedTiers actualTiers)).
Proof.
  intros [err H]. unfold aggregator. rewrite H. split; [reflexivity|].
  by exists err.
Qed.

(** C1.  If some visited (era, recipient) pair has an expected reward
    strictly below the actual one, the merge throws, the aggregator writes
    none of the four files, and a run of [main] that reaches the aggregator
    with these reward sets ends with an error and nothing written. *)
Theorem negative_delta_aborts
    (expectedTiers actualTiers : JsMap.t (JsMap.t Reward))
    (e r : Z) (dapps ofEra : JsMap.t Reward) (expected actual : Reward) :
  In (e, dapps) expectedTiers ->
  In (r, expected) dapps ->
  JsMap.get e actualTiers = Some ofEra ->
  JsMap.get r ofEra = Some actual ->
  reward expected < reward actual ->
  threw (merge expectedTiers actualTiers)
  /\ fst (aggregator expectedTiers actualTiers) = []
  /\ threw (snd (aggregator expectedTiers actualTiers))
  /\ (forall chain B fuel blocks logs,
        scanner chain fuel = Some (Ok (blocks, actualTiers)) ->
        reconciler B (toHex (code (chain END_BLOCK))) blocks
          = (logs, Ok expectedTiers) ->
        exists run,
          main chain B fuel = Some run
          /\ written run = [] /\ threw (outcome run)).
Proof.
  intros He Hr Hera Hrec Hlt.
  assert (threw (merge expectedTiers actualTiers)) as Hthrew.
  { destruct (merge expectedTiers actualTiers) as [rows|err] eqn:Hm;
      [|by exists err].
    exfalso. apply merge_Ok in Hm.
    assert (In (e, r, expected) (visits expectedTiers)) as Hin.
    { unfold visits. apply in_flat_map. exists (e, dapps). split; [exact He|].
      apply in_map_iff. by exists (r, expected). }
    destruct (Forall2_In_l _ _ _ _ Hm Hin) as [row [_ Hrow]].
    destruct Hrow as [ofEra' [a [He' [Hr' [Hle _]]]]].
    rewrite Hera in He'. injection He' as <-.
    rewrite Hrec in Hr'. injection Hr' as <-. lia. }
  split; [exact Hthrew|].
  destruct (aggregator_Throw _ _ Hthrew) as [Hw Ht].
  split; [exact Hw|]. split; [exact Ht|].
  intros chain B fuel blocks logs Hscan Hrep.
  unfold main. rewrite Hscan, Hrep.
  destruct (aggregator expectedTiers actualTiers) as [files res].
  simpl in Hw, Ht. subst files.
  eexists. split; [reflexivity|]. split; [reflexivity | exact Ht].
Qed.

Lemma negative_delta_aborts_witness :
  threw (merge Fixture.loweredTiers Fixture.actualTiers)
  /\ fst (aggregator Fixture.loweredTiers Fixture.actualTiers) = [].
Proof.
  pose proof
    (negative_delta_aborts Fixture.loweredTiers Fixture.actualTiers 2 1
       [(1, Fixture.rw 40 Fixture.A)] [(1, Fixture.rw 50 Fixture.A)]
       (Fixture.rw 40 Fixture.A) (Fixture.rw 50 Fixture.A)) as H.
  destruct H as [H1 [H2 _]].
  - simpl. right. left. reflexivity.
  - simpl. left. reflexivity.
  - reflexivity.
  - reflexivity.
  - simpl. lia.
  - split; [exact H1 | exact H2].
Defined.

Lemma inActual_actualOf (actualTiers : JsMap.t (JsMap.t Reward)) (e r : Z) :
  inActual actualTiers e r <-> is_Some (actualOf actualTiers e r).
Proof.
  unfold inActual, actualOf. split.
  - intros [ofEra [a [-> Hr]]]. by exists a.
  - intros [a H]. destruct (JsMap.get e actualTiers) as [ofEra|];
      [|discriminate]. by exists ofEra, a.
Qed.

(** The merge reads [actualTiers] only at the visited pairs. *)
Lemma mergeDapps_ext (actual1 actual2 : JsMap.t (JsMap.t Reward)) (e : Z)
    (dapps : list (Z * Reward)) :
  (forall r x, In (r, x) dapps -> actualOf actual1 e r = actualOf actual2 e r) ->
  forall acc, mergeDapps actual1 e dapps acc = mergeDapps actual2 e dapps acc.
Proof.
  induction dapps as [|[r x] dapps IH]; intros Hext acc; [reflexivity|].
  simpl. pose proof (Hext r x (or_introl eq_refl)) as Hrx.
  unfold actualOf in Hrx.
  assert (forall acc', mergeDapps actual1 e dapps acc'
                       = mergeDapps actual2 e dapps acc') as IH'
    by (apply IH; intros r' x' Hin; apply (Hext r' x'); by right).
  destruct (JsMap.get e actual1) as [m1|], (JsMap.get e actual2) as [m2|].
  - rewrite Hrx. destruct (JsMap.get r m2); [|reflexivity].
    destruct (_ <? 0); [reflexivity | apply IH'].
  - rewrite Hrx. reflexivity.
  - rewrite <- Hrx. reflexivity.
  - reflexivity.
Qed.

Lemma mergeEras_ext (actual1 actual2 : JsMap.t (JsMap.t Reward))
    (expectedTiers : list (Z * JsMap.t Reward)) :
  (forall e r, inExpected expectedTiers e r ->
               actualOf actual1 e r = actualOf actual2 e r) ->
  forall acc,
    mergeEras actual1 expectedTiers acc = mergeEras actual2 expectedTiers acc.
Proof.
  induction expectedTiers as [|[e dapps] rest IH]; intros Hext acc;
    [reflexivity|].
  simpl. rewrite (mergeDapps_ext actual1 actual2).
  - destruct (mergeDapps actual2 e dapps acc); simpl; [|reflexivity].
    apply IH. intros e' r [dapps' [x [He Hr]]]. apply Hext.
    exists dapps', x. split; [by right | exact Hr].
  - intros r x Hin. apply Hext. exists dapps, x. split; [by left | exact Hin].
Qed.

(** C2, as the code has it.  When the merge completes, the rows are exactly
    the recipients of the expected sets, each of which is then in the actual
    set of its era too, so a row exists exactly for the recipients present
    in both.  A recipient of an expected set with no actual counterpart
    makes the merge throw.  A recipient present only in an actual set is
    never read: the outcome of the merge is the same whatever the actual
    sets hold outside the visited pairs. *)
Theorem merge_completeness (expectedTiers actualTiers : JsMap.t (JsMap.t Reward)) :
  (forall rows,
      merge expectedTiers actualTiers = Ok rows ->
      forall e r,
        (hasRow rows e r <-> inExpected expectedTiers e r)
        /\ (hasRow rows e r <->
            inExpected expectedTiers e r /\ inActual actualTiers e r))
  /\ (forall e r,
        inExpected expectedTiers e r -> ~ inActual actualTiers e r ->
        threw (merge expectedTiers actualTiers))
  /\ (forall actualTiers',
        (forall e r, inExpected expectedTiers e r ->
                     actualOf actualTiers' e r = actualOf actualTiers e r) ->
        merge expectedTiers actualTiers' = merge expectedTiers actualTiers).
Proof.
  assert (forall rows, merge expectedTiers actualTiers = Ok rows ->
            forall e r,
              (hasRow rows e r <-> inExpected expectedTiers e r)
              /\ (inExpected expectedTiers e r -> inActual actualTiers e r))
    as Hrows.
  { intros rows Hm e r. apply merge_Ok in Hm. split; [split|].
    - intros [row [Hin [<- <-]]].
      destruct (Forall2_In_r _ _ _ _ Hm Hin) as [[[e' r'] x] [Hv Hrow]].
      apply rowFor_keys in Hrow as [<- [<- _]].
      apply in_visits. by exists x.
    - intros Hexp. apply in_visits in Hexp as [x Hv].
      destruct (Forall2_In_l _ _ _ _ Hm Hv) as [row [Hin Hrow]].
      apply rowFor_keys in Hrow as [He [Hr _]]. by exists row.
    - intros Hexp. apply in_visits in Hexp as [x Hv].
      destruct (Forall2_In_l _ _ _ _ Hm Hv) as [row [Hin Hrow]].
      by apply rowFor_keys in Hrow as [_ [_ [_ [_ Hact]]]]. }
  split; [|split].
  - intros rows Hm e r. destruct (Hrows rows Hm e r) as [Hiff Hact].
    split; [exact Hiff|]. rewrite Hiff. tauto.
  - intros e r Hexp Hnot.
    destruct (merge expectedTiers actualTiers) as [rows|err] eqn:Hm;
      [|by exists err].
    destruct (Hrows rows eq_refl e r) as [_ Hact]. tauto.
  - intros actualTiers' Hext. unfold merge. by apply mergeEras_ext.
Qed.

Lemma merge_completeness_witness :
  (hasRow
     [ {| Recon.era := 1; Recon.dapp_id := 1; Recon.beneficiary := Fixture.A;
          Recon.expected_tier := 0; Recon.actual_tier := 0;
          Recon.expected_reward := 150; Recon.actual_reward := 100;
          Recon.delta := 50 |};
       {| Recon.era := 2; Recon.dapp_id := 1; Recon.beneficiary := Fixture.A;
          Recon.expected_tier := 0; Recon.actual_tier := 0;
          Recon.expected_reward := 50; Recon.actual_reward := 50;
          Recon.delta := 0 |};
       {| Recon.era := 3; Recon.dapp_id := 3; Recon.beneficiary := Fixture.C;
          Recon.expected_tier := 0; Recon.actual_tier := 0;
          Recon.expected_reward := 40; Recon.actual_reward := 10;
          Recon.delta := 30 |} ] 1 2
   <-> inExpected Fixture.narrowedTiers 1 2)
  /\ threw (merge Fixture.expectedTiers Fixture.narrowedTiers).
Proof.
  split.
  - apply (proj1 (merge_completeness Fixture.narrowedTiers Fixture.actualTiers)).
    reflexivity.
  - apply (proj1 (proj2 (merge_completeness Fixture.expectedTiers
                           Fixture.narrowedTiers)) 1 2).
    + exists [(1, Fixture.rw 150 Fixture.A); (2, Fixture.rw 200 Fixture.B)],
        (Fixture.rw 200 Fixture.B).
      split; [left; reflexivity | right; left; reflexivity].
    + intros [ofEra [a [He Hr]]]. simpl in He. injection He as <-.
      discriminate Hr.
Defined.

(** Against C2 as stated: recipient 2 of era 1 is in the actual set only,
    and the merge completes with rows for the other recipients, without any
    error. *)
Lemma actual_only_recipient_is_ignored :
  inActual Fixture.actualTiers 1 2
  /\ ~ inExpected Fixture.narrowedTiers 1 2
  /\ exists rows,
       merge Fixture.narrowedTiers Fixture.actualTiers = Ok rows
       /\ map (fun x => (Recon.era x, Recon.dapp_id x)) rows = [(1, 1); (2, 1); (3, 3)].
Proof.
  split; [|split].
  - exists [(1, Fixture.rw 100 Fixture.A); (2, Fixture.rw 200 Fixture.B)],
      (Fixture.rw 200 Fixture.B).
    split; reflexivity.
  - intros [dapps [x [He Hr]]]. simpl in He.
    destruct He as [He|[He|[He|[]]]]; inversion He; subst; simpl in Hr;
      intuition discriminate.
  - eexists. split; reflexivity.
Qed.

(** ** The ledger *)

Lemma ledgerStep_insert (acc : gmap string Z) (x : Recon.t) :
  ledgerStep acc x =
    <[Recon.beneficiary x := default 0 (acc !! Recon.beneficiary x) + Recon.delta x]> acc.
Proof.
  unfold ledgerStep. destruct (acc !! Recon.beneficiary x) as [v|]; simpl;
    [|reflexivity].
  destruct (v =? 0) eqn:Hv; [|reflexivity].
  apply Z.eqb_eq in Hv. by subst.
Qed.

Lemma deltaSum_unpaid (b : string) (rows : list Recon.t) :
  existsb (paidTo b) rows = false -> deltaSum b rows = 0.
Proof.
  induction rows as [|x rows IH]; simpl; [reflexivity|].
  unfold paidTo at 1. destruct (String.eqb (Recon.beneficiary x) b); simpl;
    [discriminate | exact IH].
Qed.

Lemma fold_ledgerStep_lookup (b : string) (rows : list Recon.t) :
  forall acc : gmap string Z,
    fold_left ledgerStep rows acc !! b =
      if existsb (paidTo b) rows
      then Some (default 0 (acc !! b) + deltaSum b rows)
      else acc !! b.
Proof.
  induction rows as [|x rows IH]; intros acc; simpl; [reflexivity|].
  rewrite IH, ledgerStep_insert. unfold paidTo at 2.
  destruct (String.eqb (Recon.beneficiary x) b) eqn:Hb; simpl.
  - apply String.eqb_eq in Hb. subst b. rewrite lookup_insert_eq. simpl.
    destruct (existsb (paidTo (Recon.beneficiary x)) rows) eqn:Hex.
    + f_equal. lia.
    + rewrite (deltaSum_unpaid _ _ Hex). f_equal. lia.
  - apply String.eqb_neq in Hb. by rewrite lookup_insert_ne.
Qed.

Lemma deltaSum_filter (b : string) (rows : list Recon.t) :
  deltaSum b (List.filter nonZero rows) = deltaSum b rows.
Proof.
  induction rows as [|x rows IH]; simpl; [reflexivity|].
  unfold nonZero at 1. destruct (Recon.delta x =? 0) eqn:Hz; simpl.
  - apply Z.eqb_eq in Hz. rewrite IH, Hz.
    destruct (String.eqb (Recon.beneficiary x) b); lia.
  - rewrite IH. reflexivity.
Qed.

Lemma paid_nonZero (b : string) (rows : list Recon.t) :
  existsb (paidTo b) (List.filter nonZero rows) = true <->
  exists x, In x rows /\ Recon.beneficiary x = b /\ Recon.delta x <> 0.
Proof.
  rewrite existsb_exists. split.
  - intros [x [Hin Hb]]. apply filter_In in Hin as [Hin Hnz].
    exists x. split; [exact Hin|]. split; [by apply String.eqb_eq|].
    unfold nonZero in Hnz. apply negb_true_iff, Z.eqb_neq in Hnz. exact Hnz.
  - intros [x [Hin [Hb Hnz]]]. exists x. split.
    + apply filter_In. split; [exact Hin|].
      unfold nonZero. by apply negb_true_iff, Z.eqb_neq.
    + by apply String.eqb_eq.
Qed.

Lemma reimburse_lookup (rows : list Recon.t) (b : string) :
  reimburse rows !! b =
    if existsb (paidTo b) (List.filter nonZero rows)
    then Some (deltaSum b rows)
    else None.
Proof.
  unfold reimburse.
  change (fun x : Recon.t => negb (Recon.delta x =? 0)) with nonZero.
  rewrite fold_ledgerStep_lookup, lookup_empty, deltaSum_filter. reflexivity.
Qed.

(** C3.  A beneficiary with at least one non-zero row is mapped by the
    ledger to the sum of the deltas of all its rows, over all eras; a
    beneficiary whose rows all have delta zero is not a key of the ledger;
    and the detailed files carry every row, zero or not. *)
Theorem ledger_sums (rows : list Recon.t) (b : string) :
  ((exists x, In x rows /\ Recon.beneficiary x = b /\ Recon.delta x <> 0) ->
   reimburse rows !! b = Some (deltaSum b rows))
  /\ ((forall x, In x rows -> Recon.beneficiary x = b -> Recon.delta x = 0) ->
      reimburse rows !! b = None)
  /\ (forall expectedTiers actualTiers,
        merge expectedTiers actualTiers = Ok rows ->
        fst (aggregator expectedTiers actualTiers) =
          [ ("./raw-result.json", Rows rows);
            ("./raw-result.csv", Rows rows);
            ("./reimburse.json", Ledger (reimburse rows));
            ("./reimburse.csv", Ledger (reimburse rows)) ]).
Proof.
  split; [|split].
  - intros H. apply paid_nonZero in H. by rewrite reimburse_lookup, H.
  - intros H. rewrite reimburse_lookup.
    destruct (existsb (paidTo b) (List.filter nonZero rows)) eqn:Hex;
      [|reflexivity].
    apply paid_nonZero in Hex as [x [Hin [Hb Hnz]]].
    destruct Hnz. by apply H.
  - intros expectedTiers actualTiers Hm. unfold aggregator. by rewrite Hm.
Qed.

Lemma ledger_sums_witness :
  reimburse Fixture.finalResults !! Fixture.A = Some 50
  /\ reimburse Fixture.finalResults !! Fixture.B = None.
Proof.
  split.
  - apply (proj1 (ledger_sums Fixture.finalResults Fixture.A)).
    exists (Fixture.row 1 1 Fixture.A 150 100).
    split; [left; reflexivity|]. split; [reflexivity | discriminate].
  - apply (proj1 (proj2 (ledger_sums Fixture.finalResults Fixture.B))).
    intros x [<-|[<-|[<-|[<-|[]]]]]; simpl; intros Hb;
      first [reflexivity | discriminate Hb].
Defined.

Lemma deltaSum_nonneg (b : string) (rows : list Recon.t) :
  Forall (fun x => 0 <= Recon.delta x) rows -> 0 <= deltaSum b rows.
Proof.
  induction 1 as [|x rows Hx _ IH]; simpl; [lia|].
  destruct (String.eqb (Recon.beneficiary x) b); lia.
Qed.

Lemma deltaSum_pos (b : string) (rows : list Recon.t) :
  Forall (fun x => 0 <= Recon.delta x) rows ->
  (exists x, In x rows /\ Recon.beneficiary x = b /\ Recon.delta x <> 0) ->
  0 < deltaSum b rows.
Proof.
  induction 1 as [|y rows Hy Hall IH]; intros [x [Hin [Hb Hnz]]];
    [destruct Hin|].
  pose proof (deltaSum_nonneg b rows Hall) as Hge. simpl.
  destruct Hin as [->|Hin].
  - apply String.eqb_eq in Hb. rewrite Hb. lia.
  - assert (0 < deltaSum b rows) by (apply IH; eauto).
    destruct (String.eqb (Recon.beneficiary y) b); lia.
Qed.

Lemma merge_nonneg (expectedTiers actualTiers : JsMap.t (JsMap.t Reward))
    (rows : list Recon.t) :
  merge expectedTiers actualTiers = Ok rows ->
  Forall (fun x => 0 <= Recon.delta x) rows.
Proof.
  intros Hm. apply merge_Ok in Hm. apply List.Forall_forall. intros x Hin.
  destruct (Forall2_In_r _ _ _ _ Hm Hin) as [[[e r] y] [_ Hrow]].
  by apply rowFor_keys in Hrow as [_ [_ [_ [Hge _]]]].
Qed.

Lemma total_pos (ledger : gmap string Z) :
  (forall b v, ledger !! b = Some v -> 0 < v) ->
  0 <= total ledger /\ (ledger <> ∅ -> 0 < total ledger).
Proof.
  unfold total.
  apply (map_fold_weak_ind
           (fun r (m : gmap string Z) =>
              (forall b v, m !! b = Some v -> 0 < v) ->
              0 <= r /\ (m <> ∅ -> 0 < r))).
  - intros _. split; [lia | congruence].
  - intros b v m r Hfresh IH Hall.
    assert (0 < v) by (apply (Hall b); apply lookup_insert_eq).
    destruct IH as [Hge _].
    { intros b' v' Hb'. apply (Hall b').
      rewrite lookup_insert_ne; [exact Hb' | congruence]. }
    split; [lia | intros _; lia].
Qed.

(** C10.  When the merge completes, every amount stored in the ledger is
    strictly positive, and so is the sum of the ledger when it is not
    empty. *)
Theorem ledger_positive (expectedTiers actualTiers : JsMap.t (JsMap.t Reward))
    (rows : list Recon.t) :
  merge expectedTiers actualTiers = Ok rows ->
  (forall b v, reimburse rows !! b = Some v -> 0 < v)
  /\ (reimburse rows <> ∅ -> 0 < total (reimburse rows)).
Proof.
  intros Hm. apply merge_nonneg in Hm.
  assert (forall b v, reimburse rows !! b = Some v -> 0 < v) as Hpos.
  { intros b v Hv. rewrite reimburse_lookup in Hv.
    destruct (existsb (paidTo b) (List.filter nonZero rows)) eqn:Hex;
      [|discriminate].
    injection Hv as <-. apply deltaSum_pos; [exact Hm|].
    by apply paid_nonZero. }
  split; [exact Hpos | apply total_pos, Hpos].
Qed.

Lemma ledger_positive_witness :
  merge Fixture.expectedTiers Fixture.actualTiers = Ok Fixture.finalResults
  /\ reimburse Fixture.finalResults <> ∅
  /\ 0 < total (reimburse Fixture.finalResults).
Proof.
  assert (reimburse Fixture.finalResults <> ∅) as Hne.
  { intros Heq.
    assert (reimburse Fixture.finalResults !! Fixture.A = Some 50) as HA
      by (vm_compute; reflexivity).
    rewrite Heq, lookup_empty in HA. discriminate HA. }
  split; [reflexivity|]. split; [exact Hne|].
  apply (proj2 (ledger_positive Fixture.expectedTiers Fixture.actualTiers
                  Fixture.finalResults eq_refl)).
  exact Hne.
Defined.

Lemma printed_total_nonneg (ledger : gmap string Z) :
  (forall b v, ledger !! b = Some v -> 0 < v) ->
  0 <= Z.quot (total ledger) (10 ^ 18).
Proof.
  intros H. destruct (total_pos ledger H) as [Hge _].
  apply Z.quot_pos; lia.
Qed.

(** ** Reward extraction *)

Lemma get_set_eq {V} (k : Z) (v : V) (m : JsMap.t V) :
  JsMap.get k (JsMap.set k v m) = Some v.
Proof.
  induction m as [|[k' v'] m IH]; simpl.
  - by rewrite Z.eqb_refl.
  - destruct (k =? k') eqn:Hk; simpl; rewrite ?Z.eqb_refl, ?Hk; auto.
Qed.

Lemma get_set_ne {V} (k k' : Z) (v : V) (m : JsMap.t V) :
  k <> k' -> JsMap.get k' (JsMap.set k v m) = JsMap.get k' m.
Proof.
  intros Hne. induction m as [|[k0 v0] m IH]; simpl.
  - destruct (k' =? k) eqn:Hk; [apply Z.eqb_eq in Hk; congruence | reflexivity].
  - destruct (k =? k0) eqn:Hk; simpl.
    + apply Z.eqb_eq in Hk. subst k0.
      destruct (k' =? k) eqn:Hk'; [apply Z.eqb_eq in Hk'; congruence|].
      reflexivity.
    + rewrite IH. reflexivity.
Qed.

(** [set] keeps the position of the first key of a non-empty map. *)
Lemma set_head {V} (k k0 : Z) (v v0 : V) (m : JsMap.t V) :
  exists v' m', JsMap.set k v ((k0, v0) :: m) = (k0, v') :: m'.
Proof.
  simpl. destruct (k =? k0) eqn:Hk; [|eauto].
  apply Z.eqb_eq in Hk. subst. eauto.
Qed.

Lemma find_missing (directory : list DAppInfo) (dappId : Z) :
  (forall d, In d directory -> id d <> dappId) ->
  find (fun x => id x =? dappId) directory = None.
Proof.
  induction directory as [|d directory IH]; intros H; simpl; [reflexivity|].
  destruct (id d =? dappId) eqn:Hd.
  - apply Z.eqb_eq in Hd. destruct (H d (or_introl eq_refl) Hd).
  - apply IH. intros d' Hin. apply H. by right.
Qed.

Lemma buildRewards_Ok (directory : list DAppInfo) (rs : list Z)
    (entries : list (Z * Z)) :
  forall acc dr,
    buildRewards directory rs entries acc = Ok dr ->
    (forall dappId rec,
        JsMap.get dappId dr = Some rec ->
        JsMap.get dappId acc = Some rec
        \/ exists tier dapp,
             In (dappId, tier) entries
             /\ find (fun x => id x =? dappId) directory = Some dapp
             /\ rec = recordOf rs tier dapp)
    /\ (forall dappId,
          (is_Some (JsMap.get dappId acc) \/ exists tier, In (dappId, tier) entries) ->
          is_Some (JsMap.get dappId dr)).
Proof.
  induction entries as [|[k tier] entries IH]; intros acc dr H; simpl in H.
  - injection H as <-. split; [by left|].
    intros dappId [Hacc|[tier []]]. exact Hacc.
  - destruct (find (fun x => id x =? k) directory) as [dapp|] eqn:Hfind;
      [|discriminate].
    apply IH in H as [Hget Hkeys]. split.
    + intros dappId rec Hrec. destruct (Hget dappId rec Hrec) as [Hacc|Hnew].
      * destruct (Z.eq_dec k dappId) as [->|Hne].
        -- rewrite get_set_eq in Hacc. injection Hacc as <-.
           right. exists tier, dapp. split; [by left|]. by split.
        -- rewrite get_set_ne in Hacc by exact Hne. by left.
      * destruct Hnew as [tier' [dapp' [Hin Hrest]]].
        right. exists tier', dapp'. split; [by right | exact Hrest].
    + intros dappId Hsrc. apply Hkeys.
      destruct (Z.eq_dec k dappId) as [->|Hne].
      * left. rewrite get_set_eq. by eexists.
      * destruct Hsrc as [Hacc|[tier' [Heq|Hin]]].
        -- left. by rewrite get_set_ne.
        -- congruence.
        -- right. by exists tier'.
Qed.

Lemma buildRewards_missing (directory : list DAppInfo) (rs : list Z)
    (entries : list (Z * Z)) (dappId tier : Z) :
  In (dappId, tier) entries ->
  find (fun x => id x =? dappId) directory = None ->
  forall acc,
    buildRewards directory rs entries acc = Throw (ErrorMsg "dapp should exists").
Proof.
  induction entries as [|[k t] entries IH]; intros Hin Hnone acc;
    [destruct Hin|].
  simpl. destruct Hin as [Heq|Hin].
  - injection Heq as -> ->. by rewrite Hnone.
  - destruct (find (fun x => id x =? k) directory); [|reflexivity].
    by apply IH.
Qed.

Lemma or_else_set (a b : string) : a <> "" -> or_else (Some a) b = a.
Proof.
  intros Hne. unfold or_else, truthy.
  destruct (String.eqb a "") eqn:Ha; [|reflexivity].
  apply String.eqb_eq in Ha. contradiction.
Qed.

(** C8.  Every record built by the extraction, on the live chain or on a
    fork, carries as beneficiary the reward-beneficiary override of the
    recipient's directory entry when one is set, and the entry's owner
    otherwise; every recipient of the tier table gets a record; and a
    recipient of the tier table with no directory entry makes the
    extraction throw [dapp should exists], which ends the scan,
    respectively the replay. *)
Theorem beneficiary_resolution (view : StateView) (e : Z) :
  (forall dr,
      extractRewards view e = Ok dr ->
      (forall dappId rec,
          JsMap.get dappId dr = Some rec ->
          exists dapp,
            find (fun x => id x =? dappId) (integratedDApps view) = Some dapp
            /\ (forall a, rewardBeneficiary dapp = Some a -> a <> "" ->
                          beneficiary rec = a)
            /\ (rewardBeneficiary dapp = None -> beneficiary rec = owner dapp))
      /\ (forall t dappId tier,
            dAppTiers view e = Some t -> In (dappId, tier) (dapps t) ->
            is_Some (JsMap.get dappId dr)))
  /\ (forall t dappId tier,
        dAppTiers view e = Some t -> In (dappId, tier) (dapps t) ->
        (forall d, In d (integratedDApps view) -> id d <> dappId) ->
        extractRewards view e = Throw (ErrorMsg "dapp should exists")
        /\ (forall chain fuel st blocks actualTiers,
              chain (nextEraStart st) = view -> era st = e ->
              exists err,
                scanLoop chain (S fuel) st blocks actualTiers = Some (Throw err))
        /\ (forall B runtime tc expectedTiers block rest,
              forkApi B (producedFork B runtime tc block) = view ->
              threw (snd (replayLoop B runtime tc expectedTiers
                            ((e, block) :: rest))))).
Proof.
  split.
  - intros dr H. unfold extractRewards in H.
    destruct (dAppTiers view e) as [t|] eqn:Ht; [|discriminate].
    apply buildRewards_Ok in H as [Hget Hkeys]. split.
    + intros dappId rec Hrec.
      destruct (Hget dappId rec Hrec) as [Habs|[tier [dapp [_ [Hfind ->]]]]];
        [discriminate Habs|].
      exists dapp. split; [exact Hfind|]. simpl. split.
      * intros a -> Hne. by apply or_else_set.
      * by intros ->.
    + intros t' dappId tier Ht' Hin. injection Ht' as <-.
      apply Hkeys. right. by exists tier.
  - intros t dappId tier Ht Hin Hmiss.
    assert (extractRewards view e = Throw (ErrorMsg "dapp should exists"))
      as Hthrow.
    { unfold extractRewards. rewrite Ht.
      apply (buildRewards_missing _ _ _ dappId tier); [exact Hin|].
      by apply find_missing. }
    split; [exact Hthrow|]. split.
    + intros chain fuel st blocks actualTiers Hview He. simpl.
      unfold scanBody. rewrite Hview, He, Hthrow.
      destruct (ensureHasEvent (events view)) as [[]|err]; simpl; eauto.
    + intros B runtime tc expectedTiers block rest Hview.
      rewrite replayLoop_cons, replayEra_unfold. cbv zeta.
      rewrite Hview, Hthrow.
      destruct (ensureHasEvent (events view)) as [[]|err]; simpl;
        eexists; reflexivity.
Qed.

Lemma beneficiary_resolution_witness :
  (exists dr,
      extractRewards (Fixture.chain (Fixture.boundary 1)) 1 = Ok dr
      /\ (forall rec, JsMap.get 1 dr = Some rec -> beneficiary rec = Fixture.A)
      /\ (forall rec, JsMap.get 2 dr = Some rec -> beneficiary rec = Fixture.B))
  /\ extractRewards Fixture.orphanView 2 = Throw (ErrorMsg "dapp should exists").
Proof.
  split.
  - eexists. split; [reflexivity|].
    pose proof (proj1 (proj1 (beneficiary_resolution
                                (Fixture.chain (Fixture.boundary 1)) 1)
                         _ eq_refl)) as H.
    split; intros rec Hrec; destruct (H _ rec Hrec) as [dapp [Hfind [Hset Hnone]]];
      injection Hfind as <-.
    + apply Hset; [reflexivity | discriminate].
    + apply Hnone. reflexivity.
  - apply (proj2 (beneficiary_resolution Fixture.orphanView 2)
             (mkTiers [(1, 0); (5, 0)] [7]) 5 0).
    + reflexivity.
    + right. left. reflexivity.
    + intros d [<-|[<-|[<-|[]]]]; discriminate.
Defined.

(** ** The scan loop *)

Lemma scanBody_Ok (chain : Chain) (st st' : ProtocolState)
    (blocks : JsMap.t Z) (actualTiers : JsMap.t (JsMap.t Reward))
    (out : ScanOutput) :
  scanBody chain st blocks actualTiers = Ok (st', out) ->
  st' = activeProtocolState (chain (nextEraStart st))
  /\ exists dr,
       extractRewards (chain (nextEraStart st)) (era st) = Ok dr
       /\ out = (JsMap.set (era st) (nextEraStart st) blocks,
                 JsMap.set (era st) dr actualTiers).
Proof.
  unfold scanBody. intros H.
  apply bind_Ok in H as [[] [_ H]].
  apply bind_Ok in H as [dr [Hdr H]].
  injection H as <- <-. split; [reflexivity|]. by exists dr.
Qed.

Lemma scanLoop_keeps_head (chain : Chain) (k : Z) :
  forall fuel st b dr blocks actualTiers out,
    scanLoop chain fuel st ((k, b) :: blocks) ((k, dr) :: actualTiers)
      = Some (Ok out) ->
    exists b' dr' restB restA,
      fst out = (k, b') :: restB /\ snd out = (k, dr') :: restA.
Proof.
  induction fuel as [|fuel IH]; intros st b dr blocks actualTiers out H;
    [discriminate|].
  simpl in H.
  destruct (scanBody chain st ((k, b) :: blocks) ((k, dr) :: actualTiers))
    as [[st' [blocks' actual']]|err] eqn:Hbody; [|discriminate].
  apply scanBody_Ok in Hbody as [_ [dr0 [_ Hout]]].
  injection Hout as -> ->.
  destruct (set_head (era st) k (nextEraStart st) b blocks) as [b1 [m1 Hb]].
  destruct (set_head (era st) k dr0 dr actualTiers) as [d1 [m2 Hd]].
  simpl in Hb, Hd. rewrite Hb, Hd in H.
  destruct (nextEraStart st' <? END_BLOCK).
  - by apply IH in H.
  - injection H as <-. simpl. eauto 6.
Qed.

(** C9.  The scan loop runs its body before it looks at the condition:
    from any initial protocol state, also one whose next-era-start is
    already at or past [END_BLOCK], a scan that completes has the initial
    era as first key of both maps; and when the first body succeeds and the
    refreshed state is at or past [END_BLOCK], the scan completes with
    exactly the initial era's boundary and reward set. *)
Theorem scanner_runs_body_first (chain : Chain) (fuel : nat)
    (st : ProtocolState) :
  (forall out,
      scanLoop chain fuel st JsMap.empty JsMap.empty = Some (Ok out) ->
      exists b dr restB restA,
        fst out = (era st, b) :: restB /\ snd out = (era st, dr) :: restA)
  /\ (forall dr,
        ensureHasEvent (events (chain (nextEraStart st))) = Ok tt ->
        extractRewards (chain (nextEraStart st)) (era st) = Ok dr ->
        END_BLOCK <= nextEraStart (activeProtocolState (chain (nextEraStart st))) ->
        scanLoop chain (S fuel) st JsMap.empty JsMap.empty
          = Some (Ok ([(era st, nextEraStart st)], [(era st, dr)]))).
Proof.
  split.
  - intros out H. destruct fuel as [|fuel]; [discriminate|]. simpl in H.
    destruct (scanBody chain st JsMap.empty JsMap.empty)
      as [[st' [blocks' actual']]|err] eqn:Hbody; [|discriminate].
    apply scanBody_Ok in Hbody as [_ [dr0 [_ Hout]]].
    injection Hout as -> ->. simpl in H.
    destruct (nextEraStart st' <? END_BLOCK).
    + by apply scanLoop_keeps_head in H.
    + injection H as <-. simpl. eauto 6.
  - intros dr Hev Hdr Hend. simpl. unfold scanBody.
    rewrite Hev, Hdr. simpl.
    apply Z.ltb_ge in Hend. rewrite Hend. reflexivity.
Qed.

Lemma scanner_runs_body_first_witness :
  END_BLOCK <= nextEraStart (activeProtocolState (Fixture.lateChain START_BLOCK))
  /\ scanner Fixture.lateChain 1 =
       Some (Ok ([(9, END_BLOCK + 5 + START_BLOCK)],
                 [(9, [(2, mkReward 7 0 Fixture.B)])])).
Proof.
  split; [vm_compute; discriminate|].
  apply (proj2 (scanner_runs_body_first Fixture.lateChain 0
                  (activeProtocolState (Fixture.lateChain START_BLOCK)))).
  - reflexivity.
  - reflexivity.
  - vm_compute. discriminate.
Defined.





(** ** The replay loop *)

Lemma truthy_toHex (bs : list byte) : truthy (Some (toHex bs)) = true.
Proof. reflexivity. Qed.

Lemma replayEra_cases (B : Backend) (runtime : string) (tc : option string)
    (e block : Z) :
  (exists dr,
      let read := toHex (tierConfig (forkApi B (producedFork B runtime tc block))) in
      effResult (replayEra B runtime tc e block) = Ok (read, dr)
      /\ effLog (replayEra B runtime tc e block) =
           prologue runtime tc block
           ++ [EvReadTierConfig read; EvTeardown (block - 1)])
  \/ (exists err tail,
        effResult (replayEra B runtime tc e block) = Throw err
        /\ effLog (replayEra B runtime tc e block) =
             prologue runtime tc block ++ tail
        /\ (tail = [] \/ exists hex, tail = [EvReadTierConfig hex])).
Proof.
  rewrite replayEra_unfold. cbv zeta.
  destruct (ensureHasEvent _) as [[]|err].
  - destruct (extractRewards _ e) as [dr|err].
    + left. exists dr. split; reflexivity.
    + right. exists err. eexists. split; [reflexivity|].
      split; [reflexivity|]. right. by eexists.
  - right. exists err, []. split; [reflexivity|].
    split; [by rewrite app_nil_r | by left].
Qed.






Lemma closed_shape (runtime : string) (tc : option string) (block : Z)
    (hex : string) :
  closedIteration
    (prologue runtime tc block
     ++ [EvReadTierConfig hex; EvTeardown (block - 1)]).
Proof.
  exists (block - 1),
    (EvSetWasm runtime :: carriedOverride tc ++ [EvNewBlock; EvReadTierConfig hex]).
  unfold prologue, carriedOverride.
  destruct tc as [c|]; [destruct (truthy (Some c))|]; repeat split.
Qed.

Lemma open_shape (runtime : string) (tc : option string) (block : Z)
    (tail : list ForkEvent) :
  tail = [] \/ (exists hex, tail = [EvReadTierConfig hex]) ->
  openIteration (prologue runtime tc block ++ tail).
Proof.
  intros Htail.
  exists (block - 1),
    (EvSetWasm runtime :: carriedOverride tc ++ [EvNewBlock] ++ tail).
  unfold prologue, carriedOverride.
  destruct Htail as [->|[hex ->]];
    (destruct tc as [c|]; [destruct (truthy (Some c))|]); repeat split.
Qed.

Lemma closed_count (l : list ForkEvent) :
  closedIteration l -> setups l = 1%nat /\ teardowns l = 1%nat.
Proof.
  intros [n [body [-> [Hs Ht]]]]. unfold setups, teardowns in *. simpl.
  rewrite !List.filter_app, !length_app. simpl. lia.
Qed.

Lemma open_count (l : list ForkEvent) :
  openIteration l -> setups l = 1%nat /\ teardowns l = 0%nat.
Proof.
  intros [n [body [-> [Hs Ht]]]]. unfold setups, teardowns in *. simpl. lia.
Qed.

Lemma replayLoop_forks (B : Backend) (runtime : string)
    (blocks : list (Z * Z)) :
  forall tc expectedTiers,
    match snd (replayLoop B runtime tc expectedTiers blocks) with
    | Ok _ =>
        length (fst (replayLoop B runtime tc expectedTiers blocks))
          = length blocks
        /\ Forall closedIteration
             (fst (replayLoop B runtime tc expectedTiers blocks))
    | Throw _ =>
        exists completed l,
          fst (replayLoop B runtime tc expectedTiers blocks) = completed ++ [l]
          /\ Forall closedIteration completed /\ openIteration l
    end.
Proof.
  induction blocks as [|[e block] rest IH]; intros tc expectedTiers.
  - simpl. split; [reflexivity | constructor].
  - rewrite replayLoop_cons. cbv zeta.
    destruct (replayEra_cases B runtime tc e block)
      as [[dr [Hres Hlog]]|[err [tail [Hres [Hlog Htail]]]]].
    + cbv zeta in Hres, Hlog. set (read := toHex _) in *.
      assert (closedIteration (effLog (replayEra B runtime tc e block)))
        as Hclosed by (rewrite Hlog; apply closed_shape).
      rewrite Hres. clear Hlog Hres.
      set (lg := effLog (replayEra B runtime tc e block)) in *. clearbody lg.
      specialize (IH (Some read) (JsMap.set e dr expectedTiers)).
      destruct (replayLoop B runtime (Some read)
                  (JsMap.set e dr expectedTiers) rest) as [logs r].
      simpl in IH. simpl. destruct r as [expected|err].
      * destruct IH as [Hlen Hall]. split; [by rewrite Hlen|].
        constructor; [exact Hclosed | exact Hall].
      * destruct IH as [completed [l [-> [Hall Hopen]]]].
        exists (lg :: completed), l. split; [reflexivity|].
        split; [|exact Hopen]. constructor; [exact Hclosed | exact Hall].
    + assert (openIteration (effLog (replayEra B runtime tc e block)))
        as Hopen by (rewrite Hlog; by apply open_shape).
      rewrite Hres. clear Hlog Hres.
      set (lg := effLog (replayEra B runtime tc e block)) in *. clearbody lg.
      simpl. exists [], lg. split; [reflexivity|].
      split; [constructor | exact Hopen].
Qed.

(** C6, as the code has it.  When the replay loop completes, every
    iteration acquired one fork first and tore that fork down last, once,
    so before the next iteration's acquisition.  When a step after the
    acquisition throws, the iterations before it are as above, the failing
    iteration's fork is not torn down, and no further fork is acquired. *)
Theorem fork_teardown (B : Backend) (runtime : string) (blocks : JsMap.t Z) :
  (forall expectedTiers,
      snd (reconciler B runtime blocks) = Ok expectedTiers ->
      length (fst (reconciler B runtime blocks)) = length blocks
      /\ Forall closedIteration (fst (reconciler B runtime blocks)))
  /\ (forall err,
        snd (reconciler B runtime blocks) = Throw err ->
        exists completed l,
          fst (reconciler B runtime blocks) = completed ++ [l]
          /\ Forall closedIteration completed
          /\ openIteration l /\ setups l = 1%nat /\ teardowns l = 0%nat).
Proof.
  unfold reconciler.
  pose proof (replayLoop_forks B runtime blocks None JsMap.empty) as H.
  split.
  - intros expectedTiers Hok. by rewrite Hok in H.
  - intros err Herr. rewrite Herr in H.
    destruct H as [completed [l [Hlogs [Hall Hopen]]]].
    exists completed, l. split; [exact Hlogs|]. split; [exact Hall|].
    split; [exact Hopen | by apply open_count].
Qed.

Lemma fork_teardown_witness :
  Forall closedIteration
    (fst (reconciler Fixture.backend "0xc0de"
            [(1, Fixture.boundary 1); (2, Fixture.boundary 2)]))
  /\ exists completed l,
       fst (reconciler Fixture.failingBackend "0xc0de"
              [(1, Fixture.boundary 1); (2, Fixture.boundary 2);
               (3, Fixture.boundary 3)]) = completed ++ [l]
       /\ teardowns l = 0%nat.
Proof.
  split.
  - apply (proj1 (fork_teardown Fixture.backend "0xc0de"
                    [(1, Fixture.boundary 1); (2, Fixture.boundary 2)])
             [ (1, [(1, mkReward 150 1 Fixture.A); (2, mkReward 200 0 Fixture.B)]);
               (2, [(1, mkReward 50 0 Fixture.A)]) ]).
    vm_compute. reflexivity.
  - destruct (proj2 (fork_teardown Fixture.failingBackend "0xc0de"
                       [(1, Fixture.boundary 1); (2, Fixture.boundary 2);
                        (3, Fixture.boundary 3)])
                (ErrorMsg "Missing dappStaking::NewEra event"))
      as [completed [l [Hlogs [_ [_ [_ Htd]]]]]].
    + vm_compute. reflexivity.
    + exists completed, l. split; [exact Hlogs | exact Htd].
Defined.

(** Against C6 as stated: replaying era 2 fails at the era-advance-event
    check, after the fork was acquired; that iteration calls [teardown] zero
    times, and the run ends there. *)
Lemma failed_iteration_leaves_fork_open :
  exists l1 l2,
    reconciler Fixture.failingBackend "0xc0de"
      [(1, Fixture.boundary 1); (2, Fixture.boundary 2); (3, Fixture.boundary 3)]
      = ([l1; l2], Throw (ErrorMsg "Missing dappStaking::NewEra event"))
    /\ setups l2 = 1%nat /\ teardowns l2 = 0%nat.
Proof.
  eexists. eexists. split; [vm_compute; reflexivity|]. split; reflexivity.
Qed.

Lemma ensureHasEvent_spec_witness :
  ensureHasEvent [Fixture.other; Fixture.newEra] = Ok tt
  /\ ensureHasEvent [Fixture.other]
       = Throw (ErrorMsg "Missing dappStaking::NewEra event")
  /\ snd (reconciler Fixture.failingBackend "0xc0de"
            [(2, Fixture.boundary 2); (3, Fixture.boundary 3)])
       = Throw (ErrorMsg "Missing dappStaking::NewEra event").
Proof.
  split; [|split].
  - apply (proj1 (ensureHasEvent_spec [Fixture.other; Fixture.newEra])).
    exists Fixture.newEra. split; [right; left; reflexivity|].
    split; reflexivity.
  - apply (proj1 (proj2 (ensureHasEvent_spec [Fixture.other]))).
    discriminate.
  - apply (proj2 (proj2 (proj2 (ensureHasEvent_spec [Fixture.other]))
                    (ErrorMsg "Missing dappStaking::NewEra event") eq_refl)).
    vm_compute. reflexivity.
Defined.

(** * Further properties of the script *)

(** ** The merge, characterised *)

Lemma mergeDapps_complete (actualTiers : JsMap.t (JsMap.t Reward)) (e : Z)
    (dapps : list (Z * Reward)) :
  forall acc new,
    Forall2 (rowFor actualTiers) (map (fun '(r, x) => (e, r, x)) dapps) new ->
    mergeDapps actualTiers e dapps acc = Ok (acc ++ new).
Proof.
  induction dapps as [|[r x] dapps IH]; intros acc new H; simpl in H.
  - inversion H. by rewrite app_nil_r.
  - inversion H as [|v row vs new' Hrow Hrest]; subst.
    destruct Hrow as [ofEra [a [He [Hr [Hle ->]]]]].
    simpl. rewrite He, Hr.
    destruct (reward x - reward a <? 0) eqn:Hneg;
      [apply Z.ltb_lt in Hneg; lia|].
    rewrite (IH _ _ Hrest), <- app_assoc. reflexivity.
Qed.

Lemma mergeEras_complete (actualTiers : JsMap.t (JsMap.t Reward))
    (expectedTiers : list (Z * JsMap.t Reward)) :
  forall acc new,
    Forall2 (rowFor actualTiers) (visits expectedTiers) new ->
    mergeEras actualTiers expectedTiers acc = Ok (acc ++ new).
Proof.
  induction expectedTiers as [|[e dapps] rest IH]; intros acc new H.
  - inversion H. by rewrite app_nil_r.
  - simpl in H. apply Forall2_app_inv_l in H as [new1 [new2 [H1 [H2 ->]]]].
    simpl. rewrite (mergeDapps_complete _ _ _ _ _ H1). simpl.
    rewrite (IH _ _ H2), <- app_assoc. reflexivity.
Qed.

(** X1.  The merge returns [rows] exactly when [rows] lists, in the order
    of the loops (eras of [expectedTiers], then the recipients of each
    era), one row per visited pair, built from the visited expected record
    and the actual record found for the same era and recipient, whose
    reward is not above the expected one. *)
Theorem merge_characterised
    (expectedTiers actualTiers : JsMap.t (JsMap.t Reward)) (rows : list Recon.t) :
  merge expectedTiers actualTiers = Ok rows <->
  Forall2 (rowFor actualTiers) (visits expectedTiers) rows.
Proof.
  split; [apply merge_Ok|].
  intros H. unfold merge.
  by rewrite (mergeEras_complete actualTiers expectedTiers [] rows H).
Qed.

(** X2.  A completed merge has as many rows as there are (era, recipient)
    pairs in [expectedTiers], with the same eras, recipients and
    beneficiaries in the same order; and in every row the delta is the
    expected reward minus the actual reward and is not negative. *)
Theorem merge_rows_in_order
    (expectedTiers actualTiers : JsMap.t (JsMap.t Reward)) (rows : list Recon.t) :
  merge expectedTiers actualTiers = Ok rows ->
  map (fun x => (Recon.era x, Recon.dapp_id x, Recon.beneficiary x)) rows
    = map (fun '(e, r, x) => (e, r, beneficiary x)) (visits expectedTiers)
  /\ length rows = length (visits expectedTiers)
  /\ Forall (fun x =>
               Recon.delta x = Recon.expected_reward x - Recon.actual_reward x
               /\ 0 <= Recon.delta x) rows.
Proof.
  intros Hm. apply merge_Ok in Hm.
  induction Hm as [|[[e r] x] row vs rows Hrow _ IH].
  - repeat split; constructor.
  - destruct IH as [Hmap [Hlen Hall]].
    destruct Hrow as [ofEra [a [_ [_ [Hle ->]]]]]. simpl.
    split; [by rewrite Hmap|]. split; [by rewrite Hlen|].
    constructor; [simpl; lia | exact Hall].
Qed.

Lemma merge_rows_in_order_witness :
  length Fixture.finalResults = 4%nat
  /\ Forall (fun x => 0 <= Recon.delta x) Fixture.finalResults.
Proof.
  destruct (merge_rows_in_order Fixture.expectedTiers Fixture.actualTiers
              Fixture.finalResults eq_refl) as [_ [Hlen Hall]].
  split; [exact Hlen|].
  eapply List.Forall_impl; [|exact Hall]. intros x [_ Hx]. exact Hx.
Defined.

Lemma mergeDapps_Throw (actualTiers : JsMap.t (JsMap.t Reward)) (e : Z)
    (dapps : list (Z * Reward)) :
  forall acc err,
    mergeDapps actualTiers e dapps acc = Throw err ->
    exists r x,
      In (r, x) dapps
      /\ ((err = TypeError /\ actualOf actualTiers e r = None)
          \/ (err = ErrorMsg "amount delta should not be negative"
              /\ exists a, actualOf actualTiers e r = Some a
                           /\ reward x < reward a)).
Proof.
  induction dapps as [|[r x] dapps IH]; intros acc err H; simpl in H;
    [discriminate|].
  assert (actualOf actualTiers e r
          = match JsMap.get e actualTiers with
            | Some ofEra => JsMap.get r ofEra
            | None => None
            end) as Hof by reflexivity.
  destruct (JsMap.get e actualTiers) as [ofEra|].
  - destruct (JsMap.get r ofEra) as [a|].
    + destruct (reward x - reward a <? 0) eqn:Hneg.
      * injection H as <-. apply Z.ltb_lt in Hneg.
        exists r, x. split; [by left|]. right. split; [reflexivity|].
        exists a. split; [exact Hof | lia].
      * apply IH in H as [r' [x' [Hin Hcase]]].
        exists r', x'. split; [by right | exact Hcase].
    + injection H as <-. exists r, x. split; [by left|]. left. by split.
  - injection H as <-. exists r, x. split; [by left|]. left. by split.
Qed.

Lemma mergeEras_Throw (actualTiers : JsMap.t (JsMap.t Reward))
    (expectedTiers : list (Z * JsMap.t Reward)) :
  forall acc err,
    mergeEras actualTiers expectedTiers acc = Throw err ->
    exists e r x,
      In (e, r, x) (visits expectedTiers)
      /\ ((err = TypeError /\ actualOf actualTiers e r = None)
          \/ (err = ErrorMsg "amount delta should not be negative"
              /\ exists a, actualOf actualTiers e r = Some a
                           /\ reward x < reward a)).
Proof.
  induction expectedTiers as [|[e dapps] rest IH]; intros acc err H;
    simpl in H; [discriminate|].
  destruct (mergeDapps actualTiers e dapps acc) as [mid|err'] eqn:Hd;
    simpl in H.
  - apply IH in H as [e' [r [x [Hin Hcase]]]].
    exists e', r, x. split; [|exact Hcase].
    simpl. apply in_or_app. by right.
  - injection H as <-.
    apply mergeDapps_Throw in Hd as [r [x [Hin Hcase]]].
    exists e, r, x. split; [|exact Hcase].
    simpl. apply in_or_app. left.
    apply in_map_iff. by exists (r, x).
Qed.

(** X3.  The merge fails in two ways only: with a [TypeError], and then
    some visited pair has no actual record; or with [amount delta should
    not be negative], and then some visited pair has an actual reward
    above the expected one. *)
Theorem merge_failure_cause
    (expectedTiers actualTiers : JsMap.t (JsMap.t Reward)) (err : Error) :
  merge expectedTiers actualTiers = Throw err ->
  exists e r x,
    In (e, r, x) (visits expectedTiers)
    /\ ((err = TypeError /\ actualOf actualTiers e r = None)
        \/ (err = ErrorMsg "amount delta should not be negative"
            /\ exists a, actualOf actualTiers e r = Some a
                         /\ reward x < reward a)).
Proof. unfold merge. apply mergeEras_Throw. Qed.

Lemma merge_failure_cause_witness :
  exists e r x,
    In (e, r, x) (visits Fixture.loweredTiers)
    /\ exists a, actualOf Fixture.actualTiers e r = Some a
                 /\ reward x < reward a.
Proof.
  destruct (merge_failure_cause Fixture.loweredTiers Fixture.actualTiers
              (ErrorMsg "amount delta should not be negative") eq_refl)
    as [e [r [x [Hin [[Habs _]|[_ Hlt]]]]]]; [discriminate Habs|].
  by exists e, r, x.
Defined.

(** ** The ledger total *)

Lemma total_insert_fresh (ledger : gmap string Z) (b : string) (v : Z) :
  ledger !! b = None -> total (<[b := v]> ledger) = total ledger + v.
Proof.
  intros Hfresh. unfold total.
  rewrite map_fold_insert_L; [reflexivity | intros; lia | exact Hfresh].
Qed.

Lemma total_insert (ledger : gmap string Z) (b : string) (v : Z) :
  total (<[b := v]> ledger) = total ledger - default 0 (ledger !! b) + v.
Proof.
  destruct (ledger !! b) as [w|] eqn:Hb; simpl.
  - rewrite <- (insert_delete_eq ledger).
    rewrite total_insert_fresh by apply lookup_delete_eq.
    rewrite <- (insert_id ledger b w Hb) at 2.
    rewrite <- (insert_delete_eq ledger b w).
    rewrite total_insert_fresh by apply lookup_delete_eq. lia.
  - rewrite total_insert_fresh by exact Hb. lia.
Qed.

Lemma total_fold_ledgerStep (rows : list Recon.t) :
  forall acc : gmap string Z,
    total (fold_left ledgerStep rows acc) = total acc + sumDeltas rows.
Proof.
  induction rows as [|x rows IH]; intros acc; simpl; [lia|].
  rewrite IH, ledgerStep_insert, total_insert. lia.
Qed.

Lemma sumDeltas_filter (rows : list Recon.t) :
  sumDeltas (List.filter nonZero rows) = sumDeltas rows.
Proof.
  induction rows as [|x rows IH]; simpl; [reflexivity|].
  unfold nonZero at 1. destruct (Recon.delta x =? 0) eqn:Hz; simpl.
  - apply Z.eqb_eq in Hz. lia.
  - by rewrite IH.
Qed.

(** X4.  The amounts of the ledger add up to the sum of the deltas of all
    rows, the zero ones included; the figure a successful run prints is
    that sum divided by [10 ^ 18], rounded towards zero. *)
Theorem total_is_sum_of_deltas (rows : list Recon.t) :
  total (reimburse rows) = sumDeltas rows
  /\ (forall expectedTiers actualTiers,
        merge expectedTiers actualTiers = Ok rows ->
        snd (aggregator expectedTiers actualTiers)
          = Ok (Z.quot (sumDeltas rows) (10 ^ 18))).
Proof.
  assert (total (reimburse rows) = sumDeltas rows) as Htotal.
  { unfold reimburse.
    change (fun x : Recon.t => negb (Recon.delta x =? 0)) with nonZero.
    rewrite total_fold_ledgerStep, sumDeltas_filter.
    unfold total. rewrite map_fold_empty. lia. }
  split; [exact Htotal|].
  intros expectedTiers actualTiers Hm. unfold aggregator.
  rewrite Hm. simpl. by rewrite Htotal.
Qed.

Lemma total_is_sum_of_deltas_witness :
  total (reimburse Fixture.finalResults) = 80
  /\ snd (aggregator Fixture.expectedTiers Fixture.actualTiers) = Ok 0.
Proof.
  destruct (total_is_sum_of_deltas Fixture.finalResults) as [Ht Hagg].
  split; [exact Ht|].
  exact (Hagg Fixture.expectedTiers Fixture.actualTiers eq_refl).
Defined.

(** ** All or nothing *)

(** X5.  A run of [main] that ends is of one of two kinds: it threw, wrote
    no file and the process exits with status 1; or it returned, wrote the
    four files, in the order [raw-result.json], [raw-result.csv],
    [reimburse.json], [reimburse.csv], the first two with all rows and the
    last two with their ledger, and the process exits with status 0.  A run
    whose scan threw acquired no fork. *)
Theorem main_all_or_nothing (chain : Chain) (B : Backend) (fuel : nat)
    (run : Run) :
  main chain B fuel = Some run ->
  ((threw (outcome run) /\ written run = [] /\ exitStatus run = 1)
   \/ (exists rows,
         outcome run = Ok (Z.quot (total (reimburse rows)) (10 ^ 18))
         /\ written run = fourFiles rows /\ exitStatus run = 0))
  /\ (forall err, scanner chain fuel = Some (Throw err) ->
                  forkLog run = [] /\ outcome run = Throw err).
Proof.
  unfold main. intros H.
  destruct (scanner chain fuel) as [[[blocks actualTiers]|err]|] eqn:Hscan;
    [| |discriminate].
  - split; [|intros err' Habs; discriminate Habs].
    destruct (reconciler B _ blocks) as [logs [expectedTiers|err]].
    + unfold aggregator in H.
      destruct (merge expectedTiers actualTiers) as [rows|err] eqn:Hm;
        injection H as <-; simpl.
      * right. by exists rows.
      * left. split; [by exists err | by split].
    + injection H as <-. left. split; [by exists err | by split].
  - injection H as <-. simpl. split.
    + left. split; [by exists err | by split].
    + intros err' Heq. injection Heq as <-. by split.
Qed.

Lemma main_all_or_nothing_witness :
  exists run rows,
    main Fixture.chain Fixture.backend 5 = Some run
    /\ written run = fourFiles rows.
Proof.
  destruct (main Fixture.chain Fixture.backend 5) as [run|] eqn:Hmain;
    [|vm_compute in Hmain; discriminate Hmain].
  destruct (main_all_or_nothing Fixture.chain Fixture.backend 5 run Hmain)
    as [[[[err Habs] _]|[rows [_ [Hfiles _]]]] _].
  - vm_compute in Hmain. injection Hmain as <-. discriminate Habs.
  - by exists run, rows.
Defined.

(** ** Insertion-ordered maps *)

Lemma keys_set {V} (k : Z) (v : V) (m : JsMap.t V) :
  JsMap.keys (JsMap.set k v m) = addKey (JsMap.keys m) k.
Proof.
  unfold addKey, JsMap.keys.
  induction m as [|[k' v'] m IH]; simpl; [reflexivity|].
  destruct (k =? k') eqn:Hk; simpl.
  - apply Z.eqb_eq in Hk. by subst.
  - rewrite IH. by destruct (existsb (Z.eqb k) (map fst m)).
Qed.

Lemma existsb_eqb_In (k : Z) (ks : list Z) :
  existsb (Z.eqb k) ks = true <-> In k ks.
Proof.
  rewrite existsb_exists. split.
  - intros [x [Hin Hx]]. apply Z.eqb_eq in Hx. by subst.
  - intros Hin. exists k. split; [exact Hin | apply Z.eqb_refl].
Qed.

Lemma NoDup_addKey (ks : list Z) (k : Z) :
  List.NoDup ks -> List.NoDup (addKey ks k).
Proof.
  intros Hnd. unfold addKey.
  destruct (existsb (Z.eqb k) ks) eqn:Hex; [exact Hnd|].
  assert (~ In k ks) as Hnin
    by (intros Hin; apply existsb_eqb_In in Hin; congruence).
  clear Hex. induction Hnd as [|x ks Hx Hnd IH]; simpl.
  - constructor; [intros [] | constructor].
  - constructor.
    + intros Hin. apply in_app_or in Hin as [Hin|[<-|[]]]; [by apply Hx|].
      apply Hnin. by left.
    + apply IH. intros Hin. apply Hnin. by right.
Qed.

Lemma Forall_set {V} (P : Z * V -> Prop) (k : Z) (v : V) (m : JsMap.t V) :
  Forall P m -> P (k, v) -> Forall P (JsMap.set k v m).
Proof.
  intros Hall Hk. induction Hall as [|[k' v'] m Hp Hall IH]; simpl.
  - by constructor.
  - destruct (k =? k'); constructor; assumption.
Qed.

Lemma Forall2_set {V W} (R : Z * V -> Z * W -> Prop) (k : Z) (v : V) (w : W)
    (m1 : JsMap.t V) (m2 : JsMap.t W) :
  (forall p q, R p q -> fst q = fst p) ->
  Forall2 R m1 m2 -> R (k, v) (k, w) ->
  Forall2 R (JsMap.set k v m1) (JsMap.set k w m2).
Proof.
  intros Hkey Hall Hk.
  induction Hall as [|[k1 v1] [k2 w2] m1 m2 Hr Hall IH]; simpl.
  - by constructor.
  - pose proof (Hkey _ _ Hr) as Heq. simpl in Heq. subst k2.
    destruct (k =? k1); constructor; assumption.
Qed.

Lemma Forall2_get {V W} (R : Z * V -> Z * W -> Prop) (k : Z) (v : V)
    (m1 : JsMap.t V) (m2 : JsMap.t W) :
  (forall p q, R p q -> fst q = fst p) ->
  Forall2 R m1 m2 -> JsMap.get k m1 = Some v ->
  exists w, JsMap.get k m2 = Some w /\ R (k, v) (k, w).
Proof.
  intros Hkey Hall.
  induction Hall as [|[k1 v1] [k2 w2] m1 m2 Hr Hall IH]; simpl;
    [discriminate|].
  pose proof (Hkey _ _ Hr) as Heq. simpl in Heq. subst k2.
  destruct (k =? k1) eqn:Hk; [|exact IH].
  apply Z.eqb_eq in Hk. subst k1. intros [= <-]. by exists w2.
Qed.

Lemma get_In {V} (k : Z) (v : V) (m : JsMap.t V) :
  JsMap.get k m = Some v -> In (k, v) m.
Proof.
  induction m as [|[k' v'] m IH]; simpl; [discriminate|].
  destruct (k =? k') eqn:Hk.
  - apply Z.eqb_eq in Hk. subst. intros [= <-]. by left.
  - intros H. right. by apply IH.
Qed.

Lemma In_get {V} (k : Z) (v : V) (m : JsMap.t V) :
  In (k, v) m -> is_Some (JsMap.get k m).
Proof.
  induction m as [|[k' v'] m IH]; simpl; [intros []|].
  destruct (k =? k') eqn:Hk; [by eexists|].
  intros [Heq|Hin]; [|by apply IH].
  injection Heq as -> _. rewrite Z.eqb_refl in Hk. discriminate Hk.
Qed.

(** ** What the scan records *)

Lemma recordedAt_key (chain : Chain) (p : Z * Z) (q : Z * JsMap.t Reward) :
  recordedAt chain p q -> fst q = fst p.
Proof. by intros [H _]. Qed.

Lemma scanLoop_invariants (chain : Chain) (b0 : Z) :
  forall fuel st blocks actualTiers out,
    Forall2 (recordedAt chain) blocks actualTiers ->
    List.NoDup (JsMap.keys blocks) ->
    Forall (fun p => snd p = b0 \/ snd p < END_BLOCK) blocks ->
    nextEraStart st = b0 \/ nextEraStart st < END_BLOCK ->
    scanLoop chain fuel st blocks actualTiers = Some (Ok out) ->
    Forall2 (recordedAt chain) (fst out) (snd out)
    /\ List.NoDup (JsMap.keys (fst out))
    /\ Forall (fun p => snd p = b0 \/ snd p < END_BLOCK) (fst out).
Proof.
  induction fuel as [|fuel IH];
    intros st blocks actualTiers out Hrec Hnd Hrange Hst H; [discriminate|].
  simpl in H.
  destruct (scanBody chain st blocks actualTiers)
    as [[st' [blocks' actual']]|err] eqn:Hbody; [|discriminate].
  unfold scanBody in Hbody.
  apply bind_Ok in Hbody as [[] [Hev Hbody]].
  apply bind_Ok in Hbody as [dr [Hdr Hbody]].
  injection Hbody as <- <- <-.
  assert (Forall2 (recordedAt chain)
            (JsMap.set (era st) (nextEraStart st) blocks)
            (JsMap.set (era st) dr actualTiers)) as Hrec'.
  { apply Forall2_set; [apply recordedAt_key | exact Hrec|].
    split; [reflexivity|]. by split. }
  assert (List.NoDup (JsMap.keys (JsMap.set (era st) (nextEraStart st) blocks)))
    as Hnd' by (rewrite keys_set; by apply NoDup_addKey).
  assert (Forall (fun p => snd p = b0 \/ snd p < END_BLOCK)
            (JsMap.set (era st) (nextEraStart st) blocks)) as Hrange'
    by (by apply Forall_set).
  destruct (nextEraStart (activeProtocolState (chain (nextEraStart st)))
            <? END_BLOCK) eqn:Hlt.
  - apply Z.ltb_lt in Hlt.
    apply (IH _ _ _ _ Hrec' Hnd' Hrange' (or_intror Hlt) H).
  - injection H as <-. simpl. by repeat split.
Qed.

(** X6.  When the scan completes, [blocks] and [actualTiers] have the same
    eras in the same order, each once; for every recorded boundary the
    block carries the era-advance event and the era's actual set is the one
    extracted at that block. *)
Theorem scanner_records (chain : Chain) (fuel : nat) (blocks : JsMap.t Z)
    (actualTiers : JsMap.t (JsMap.t Reward)) :
  scanner chain fuel = Some (Ok (blocks, actualTiers)) ->
  JsMap.keys actualTiers = JsMap.keys blocks
  /\ List.NoDup (JsMap.keys blocks)
  /\ (forall e block,
        JsMap.get e blocks = Some block ->
        ensureHasEvent (events (chain block)) = Ok tt
        /\ exists dr,
             JsMap.get e actualTiers = Some dr
             /\ extractRewards (chain block) e = Ok dr).
Proof.
  unfold scanner. intros H.
  apply (scanLoop_invariants chain
           (nextEraStart (activeProtocolState (chain START_BLOCK)))) in H
    as [Hrec [Hnd _]]; [|constructor|constructor|constructor|by left].
  simpl in Hrec, Hnd. split; [|split; [exact Hnd|]].
  - unfold JsMap.keys. clear Hnd.
    induction Hrec as [|p q bs acts Hpq _ IH]; [reflexivity|].
    simpl. rewrite IH. f_equal. by apply recordedAt_key in Hpq.
  - intros e block Hget.
    destruct (Forall2_get _ _ _ _ _ (recordedAt_key chain) Hrec Hget)
      as [dr [Hdr [_ [Hev Hex]]]].
    split; [exact Hev|]. by exists dr.
Qed.

Lemma scanner_records_witness :
  exists blocks actualTiers,
    scanner Fixture.chain 5 = Some (Ok (blocks, actualTiers))
    /\ JsMap.keys actualTiers = JsMap.keys blocks
    /\ JsMap.keys blocks = [1; 2; 3].
Proof.
  destruct (scanner Fixture.chain 5) as [[[blocks actualTiers]|err]|] eqn:Hs;
    [|vm_compute in Hs; discriminate Hs|vm_compute in Hs; discriminate Hs].
  exists blocks, actualTiers. split; [reflexivity|].
  split; [apply (scanner_records Fixture.chain 5 _ _ Hs)|].
  vm_compute in Hs. injection Hs as <- _. reflexivity.
Defined.

(** X7.  Every boundary the scan records, other than the one of the
    initial protocol state, lies strictly below [END_BLOCK]; so all of them
    do when the initial one does. *)
Theorem scanner_boundaries_below_end (chain : Chain) (fuel : nat)
    (blocks : JsMap.t Z) (actualTiers : JsMap.t (JsMap.t Reward)) :
  scanner chain fuel = Some (Ok (blocks, actualTiers)) ->
  (forall e block,
      In (e, block) blocks ->
      block = nextEraStart (activeProtocolState (chain START_BLOCK))
      \/ block < END_BLOCK)
  /\ (nextEraStart (activeProtocolState (chain START_BLOCK)) < END_BLOCK ->
      forall e block, In (e, block) blocks -> block < END_BLOCK).
Proof.
  unfold scanner. intros H.
  apply (scanLoop_invariants chain
           (nextEraStart (activeProtocolState (chain START_BLOCK)))) in H
    as [_ [_ Hrange]]; [|constructor|constructor|constructor|by left].
  simpl in Hrange. rewrite List.Forall_forall in Hrange.
  split.
  - intros e block Hin. exact (Hrange (e, block) Hin).
  - intros Hfirst e block Hin.
    destruct (Hrange (e, block) Hin) as [Heq|Hlt]; simpl in *; lia.
Qed.

Lemma scanner_boundaries_below_end_witness :
  Fixture.boundary 3 < END_BLOCK.
Proof.
  apply (proj2 (scanner_boundaries_below_end Fixture.chain 5
                  [(1, Fixture.boundary 1); (2, Fixture.boundary 2);
                   (3, Fixture.boundary 3)]
                  [ (1, [(1, mkReward 100 1 Fixture.A); (2, mkReward 200 0 Fixture.B)]);
                    (2, [(1, mkReward 50 0 Fixture.A)]);
                    (3, [(3, mkReward 10 0 Fixture.C)]) ]
                  ltac:(vm_compute; reflexivity))
           ltac:(vm_compute; reflexivity) 3 (Fixture.boundary 3)).
  right. right. left. reflexivity.
Defined.

(** ** What the replay records *)

Lemma replayEra_Ok (B : Backend) (runtime : string) (tc : option string)
    (e block : Z) (read : string) (dr : JsMap.t Reward) :
  effResult (replayEra B runtime tc e block) = Ok (read, dr) ->
  ensureHasEvent (events (forkApi B (producedFork B runtime tc block))) = Ok tt
  /\ extractRewards (forkApi B (producedFork B runtime tc block)) e = Ok dr
  /\ read = toHex (tierConfig (forkApi B (producedFork B runtime tc block))).
Proof.
  rewrite replayEra_unfold. cbv zeta.
  destruct (ensureHasEvent _) as [[]|err]; [|discriminate].
  destruct (extractRewards _ e) as [dr'|err]; [|discriminate].
  simpl. intros [= <- <-]. by repeat split.
Qed.

Lemma fold_addKey_fresh (es : list Z) :
  forall ks,
    List.NoDup es -> (forall k, In k es -> ~ In k ks) ->
    fold_left addKey es ks = ks ++ es.
Proof.
  induction es as [|k es IH]; intros ks Hnd Hfresh; simpl;
    [by rewrite app_nil_r|].
  inversion Hnd as [|? ? Hk Hnd']; subst.
  assert (addKey ks k = ks ++ [k]) as ->.
  { unfold addKey. destruct (existsb (Z.eqb k) ks) eqn:Hex; [|reflexivity].
    apply existsb_eqb_In in Hex. destruct (Hfresh k (or_introl eq_refl) Hex). }
  rewrite IH; [by rewrite <- app_assoc|exact Hnd'|].
  intros k' Hin Hin'. apply in_app_or in Hin' as [Hin'|[<-|[]]].
  - apply (Hfresh k'); [by right | exact Hin'].
  - by apply Hk.
Qed.

Lemma replayLoop_Ok (B : Backend) (runtime : string) (allBlocks : list (Z * Z))
    (blocks : list (Z * Z)) :
  forall tc expectedTiers result,
    (forall p, In p blocks -> In p allBlocks) ->
    Forall (replayedFrom B runtime allBlocks) expectedTiers ->
    snd (replayLoop B runtime tc expectedTiers blocks) = Ok result ->
    Forall (replayedFrom B runtime allBlocks) result
    /\ JsMap.keys result
       = fold_left addKey (map fst blocks) (JsMap.keys expectedTiers).
Proof.
  induction blocks as [|[e block] rest IH];
    intros tc expectedTiers result Hsub Hall H.
  - simpl in H. injection H as <-. by split.
  - rewrite replayLoop_cons in H. cbv zeta in H.
    destruct (effResult (replayEra B runtime tc e block))
      as [[read dr]|err] eqn:Hres; [|discriminate H].
    apply replayEra_Ok in Hres as [Hev [Hdr _]].
    specialize (IH (Some read) (JsMap.set e dr expectedTiers) result).
    destruct (replayLoop B runtime (Some read)
                (JsMap.set e dr expectedTiers) rest) as [logs r].
    simpl in H, IH. destruct IH as [Hres Hkeys].
    + intros p Hin. apply Hsub. by right.
    + apply Forall_set; [exact Hall|].
      exists block, tc. split; [apply Hsub; by left|]. by split.
    + exact H.
    + split; [exact Hres|]. simpl. by rewrite Hkeys, keys_set.
Qed.

(** X8.  When the replay loop completes on a [blocks] map, [expectedTiers]
    has the eras of [blocks] in the same order, and the set stored for an
    era is the one extracted from a fork produced for that era's block,
    after the era-advance check passed on that fork. *)
Theorem reconciler_records (B : Backend) (runtime : string)
    (blocks : JsMap.t Z) (expectedTiers : JsMap.t (JsMap.t Reward)) :
  List.NoDup (JsMap.keys blocks) ->
  snd (reconciler B runtime blocks) = Ok expectedTiers ->
  JsMap.keys expectedTiers = JsMap.keys blocks
  /\ (forall e dr,
        JsMap.get e expectedTiers = Some dr ->
        replayedFrom B runtime blocks (e, dr)).
Proof.
  intros Hnd H. unfold reconciler in H.
  apply (replayLoop_Ok B runtime blocks) in H as [Hall Hkeys];
    [|auto|constructor].
  split.
  - rewrite Hkeys. simpl.
    apply (fold_addKey_fresh (map fst blocks) [] Hnd). by intros k _ [].
  - intros e dr Hget. apply get_In in Hget.
    rewrite List.Forall_forall in Hall. by apply Hall.
Qed.

Lemma reconciler_records_witness :
  exists expectedTiers,
    snd (reconciler Fixture.backend "0xc0de"
           [(1, Fixture.boundary 1); (2, Fixture.boundary 2)]) = Ok expectedTiers
    /\ JsMap.keys expectedTiers = [1; 2].
Proof.
  eexists. split; [vm_compute; reflexivity|].
  apply (reconciler_records Fixture.backend "0xc0de"
           [(1, Fixture.boundary 1); (2, Fixture.boundary 2)]).
  - repeat constructor; simpl; intuition discriminate.
  - vm_compute. reflexivity.
Defined.

(** X9.  In a run of [main] that reaches the merge, [expectedTiers] and
    [actualTiers] have the same eras in the same order, so the era lookup
    of the merge always finds a set; a [TypeError] of the merge then means
    that a recipient of an era's expected set is missing from the actual
    set of that same era. *)
Theorem main_eras_aligned (chain : Chain) (B : Backend) (fuel : nat)
    (runtime : string) (blocks : JsMap.t Z)
    (actualTiers expectedTiers : JsMap.t (JsMap.t Reward)) :
  scanner chain fuel = Some (Ok (blocks, actualTiers)) ->
  snd (reconciler B runtime blocks) = Ok expectedTiers ->
  JsMap.keys expectedTiers = JsMap.keys actualTiers
  /\ (forall e dapps,
        In (e, dapps) expectedTiers -> is_Some (JsMap.get e actualTiers))
  /\ (merge expectedTiers actualTiers = Throw TypeError ->
      exists e r x ofEra,
        In (e, r, x) (visits expectedTiers)
        /\ JsMap.get e actualTiers = Some ofEra
        /\ JsMap.get r ofEra = None).
Proof.
  intros Hscan Hrep.
  unfold scanner in Hscan.
  apply (scanLoop_invariants chain
           (nextEraStart (activeProtocolState (chain START_BLOCK)))) in Hscan
    as [Hrec [Hnd _]]; [|constructor|constructor|constructor|by left].
  simpl in Hrec, Hnd.
  assert (JsMap.keys actualTiers = JsMap.keys blocks) as Hact.
  { unfold JsMap.keys. clear Hnd Hrep.
    induction Hrec as [|p q bs acts Hpq _ IH]; [reflexivity|].
    simpl. rewrite IH. f_equal. by apply recordedAt_key in Hpq. }
  unfold reconciler in Hrep.
  apply (replayLoop_Ok B runtime blocks) in Hrep as [_ Hkeys];
    [|auto|constructor].
  simpl in Hkeys.
  rewrite (fold_addKey_fresh (map fst blocks) [] Hnd) in Hkeys
    by (by intros k _ []).
  simpl in Hkeys.
  assert (JsMap.keys expectedTiers = JsMap.keys actualTiers) as Haligned
    by (by rewrite Hkeys, Hact).
  assert (forall e dapps,
             In (e, dapps) expectedTiers -> is_Some (JsMap.get e actualTiers))
    as Hlookup.
  { intros e dapps Hin.
    assert (In e (JsMap.keys actualTiers)) as Hk.
    { rewrite <- Haligned. unfold JsMap.keys.
      apply in_map_iff. by exists (e, dapps). }
    unfold JsMap.keys in Hk. apply in_map_iff in Hk as [[e' ofEra] [Heq Hin']].
    simpl in Heq. subst e'. by apply (In_get e ofEra). }
  split; [exact Haligned|]. split; [exact Hlookup|].
  intros Hm. unfold merge in Hm.
  apply mergeEras_Throw in Hm as [e [r [x [Hin [[_ Hnone]|[Habs _]]]]]];
    [|discriminate Habs].
  assert (inExpected expectedTiers e r) as [dapps [x' [He _]]]
    by (apply in_visits; by exists x).
  destruct (Hlookup e dapps He) as [ofEra HofEra].
  exists e, r, x, ofEra. split; [exact Hin|]. split; [exact HofEra|].
  unfold actualOf in Hnone. by rewrite HofEra in Hnone.
Qed.

Lemma main_eras_aligned_witness :
  exists blocks actualTiers expectedTiers,
    scanner Fixture.chain 5 = Some (Ok (blocks, actualTiers))
    /\ snd (reconciler Fixture.backend "0xc0de" blocks) = Ok expectedTiers
    /\ JsMap.keys expectedTiers = JsMap.keys actualTiers.
Proof.
  destruct (scanner Fixture.chain 5) as [[[blocks actualTiers]|err]|] eqn:Hs;
    [|vm_compute in Hs; discriminate Hs|vm_compute in Hs; discriminate Hs].
  destruct (snd (reconciler Fixture.backend "0xc0de" blocks))
    as [expectedTiers|err] eqn:Hr.
  - exists blocks, actualTiers, expectedTiers.
    split; [reflexivity|]. split; [exact Hr|].
    apply (main_eras_aligned Fixture.chain Fixture.backend 5 "0xc0de"
             blocks actualTiers expectedTiers Hs Hr).
  - vm_compute in Hs. injection Hs as <- _.
    vm_compute in Hr. discriminate Hr.
Defined.




(** ** The extraction, characterised *)

Lemma set_fresh {V} (k : Z) (v : V) (m : JsMap.t V) :
  ~ In k (JsMap.keys m) -> JsMap.set k v m = m ++ [(k, v)].
Proof.
  induction m as [|[k' v'] m IH]; intros Hfresh; simpl; [reflexivity|].
  destruct (k =? k') eqn:Hk.
  - apply Z.eqb_eq in Hk. subst. destruct Hfresh. by left.
  - rewrite IH; [reflexivity|]. intros Hin. apply Hfresh. by right.
Qed.

Lemma buildRewards_exact (directory : list DAppInfo) (rs : list Z)
    (entries : list (Z * Z)) :
  forall acc dr,
    List.NoDup (map fst entries) ->
    (forall k, In k (map fst entries) -> ~ In k (JsMap.keys acc)) ->
    buildRewards directory rs entries acc = Ok dr ->
    exists new,
      dr = acc ++ new /\ Forall2 (builtFrom directory rs) entries new.
Proof.
  induction entries as [|[k tier] entries IH]; intros acc dr Hnd Hfresh H;
    simpl in H.
  - injection H as <-. exists []. split; [by rewrite app_nil_r | constructor].
  - destruct (find (fun x => id x =? k) directory) as [dapp|] eqn:Hfind;
      [|discriminate].
    inversion Hnd as [|? ? Hk Hnd']; subst.
    rewrite set_fresh in H by (apply Hfresh; by left).
    apply IH in H as [new [-> Hnew]]; [|exact Hnd'|].
    + eexists (_ :: new). split; [by rewrite <- app_assoc|].
      constructor; [|exact Hnew]. split; [reflexivity|]. by exists dapp.
    + intros k' Hin Hin'. unfold JsMap.keys in Hin'.
      rewrite map_app in Hin'. apply in_app_or in Hin' as [Hin'|[<-|[]]].
      * apply (Hfresh k'); [by right | exact Hin'].
      * by apply Hk.
Qed.

Lemma buildRewards_total (directory : list DAppInfo) (rs : list Z)
    (entries : list (Z * Z)) :
  (forall k tier, In (k, tier) entries ->
                  exists d, In d directory /\ id d = k) ->
  forall acc, exists dr, buildRewards directory rs entries acc = Ok dr.
Proof.
  induction entries as [|[k tier] entries IH]; intros Hreg acc; simpl;
    [by eexists|].
  destruct (find (fun x => id x =? k) directory) as [dapp|] eqn:Hfind.
  - apply IH. intros k' tier' Hin. apply (Hreg k' tier'). by right.
  - destruct (Hreg k tier (or_introl eq_refl)) as [d [Hin Hid]].
    pose proof (find_none _ _ Hfind d Hin) as Hd. simpl in Hd.
    apply Z.eqb_neq in Hd. contradiction.
Qed.

(** X11.  When the era has a tier table whose recipients are distinct, a
    successful extraction returns the recipients of the table in the
    table's order, each with its tier, the reward of that tier (zero when
    the tier is no index of the rewards array) and the beneficiary of its
    first directory entry; and the extraction succeeds whenever every
    recipient of the table has a directory entry. *)
Theorem extraction_exact (view : StateView) (e : Z) (t : DAppTierRewards) :
  dAppTiers view e = Some t ->
  List.NoDup (map fst (dapps t)) ->
  (forall dr,
      extractRewards view e = Ok dr ->
      Forall2 (builtFrom (integratedDApps view) (rewards t)) (dapps t) dr)
  /\ ((forall k tier, In (k, tier) (dapps t) ->
                      exists d, In d (integratedDApps view) /\ id d = k) ->
      exists dr, extractRewards view e = Ok dr).
Proof.
  intros Ht Hnd. unfold extractRewards. rewrite Ht. split.
  - intros dr H.
    apply buildRewards_exact in H as [new [-> Hnew]];
      [exact Hnew | exact Hnd | by intros k _ []].
  - intros Hreg. by apply buildRewards_total.
Qed.

Lemma extraction_exact_witness :
  Forall2 (builtFrom Fixture.directory [200; 100]) [(1, 1); (2, 0)]
    [(1, mkReward 100 1 Fixture.A); (2, mkReward 200 0 Fixture.B)].
Proof.
  apply (proj1 (extraction_exact (Fixture.chain (Fixture.boundary 1)) 1
                  (mkTiers [(1, 1); (2, 0)] [200; 100]) eq_refl
                  ltac:(repeat constructor; simpl; intuition discriminate))).
  reflexivity.
Defined.

(** X12.  The extraction fails in two ways only: with a [TypeError] when
    the era has no tier table, and with [dapp should exists] when some
    recipient of the table has no directory entry. *)
Theorem extraction_failure_cause (view : StateView) (e : Z) (err : Error) :
  extractRewards view e = Throw err ->
  (err = TypeError /\ dAppTiers view e = None)
  \/ (err = ErrorMsg "dapp should exists"
      /\ exists t k tier,
           dAppTiers view e = Some t /\ In (k, tier) (dapps t)
           /\ forall d, In d (integratedDApps view) -> id d <> k).
Proof.
  unfold extractRewards.
  destruct (dAppTiers view e) as [t|]; [|intros [= <-]; by left].
  intros H. right.
  assert (forall entries acc,
             buildRewards (integratedDApps view) (rewards t) entries acc
               = Throw err ->
             err = ErrorMsg "dapp should exists"
             /\ exists k tier,
                  In (k, tier) entries
                  /\ forall d, In d (integratedDApps view) -> id d <> k)
    as Hbuild.
  { induction entries as [|[k tier] entries IH]; intros acc Hb; simpl in Hb;
      [discriminate|].
    destruct (find (fun x => id x =? k) (integratedDApps view)) as [dapp|]
      eqn:Hfind.
    - apply IH in Hb as [-> [k' [tier' [Hin Hmiss]]]].
      split; [reflexivity|]. exists k', tier'. split; [by right | exact Hmiss].
    - injection Hb as <-. split; [reflexivity|].
      exists k, tier. split; [by left|].
      intros d Hin. pose proof (find_none _ _ Hfind d Hin) as Hd.
      simpl in Hd. by apply Z.eqb_neq in Hd. }
  apply Hbuild in H as [-> [k [tier [Hin Hmiss]]]].
  split; [reflexivity|]. by exists t, k, tier.
Qed.

Lemma extraction_failure_cause_witness :
  exists k tier,
    In (k, tier) [(1, 0); (5, 0)]
    /\ forall d, In d Fixture.directory -> id d <> k.
Proof.
  destruct (extraction_failure_cause Fixture.orphanView 2
              (ErrorMsg "dapp should exists") eq_refl)
    as [[Habs _]|[_ [t [k [tier [Ht [Hin Hmiss]]]]]]]; [discriminate Habs|].
  injection Ht as <-. by exists k, tier.
Defined.

(** ** Decimal numerals and the replacer *)

Lemma parse_decimal (n : Z) : parseDecimal (decimal n) = Some n.
Proof.
  unfold parseDecimal, decimal. rewrite NilZero.isi.
  - simpl. by rewrite DecimalZ.of_to.
  - destruct n as [|p|p]; simpl; try discriminate.
    intros [= H]. by apply Unsigned.to_uint_nonnil in H.
  - destruct n as [|p|p]; simpl; try discriminate.
    intros [= H]. by apply Unsigned.to_uint_nonnil in H.
Qed.

Lemma digits_plain (d : Decimal.uint) :
  hasChar comma (NilEmpty.string_of_uint d) = false
  /\ hasChar newline (NilEmpty.string_of_uint d) = false.
Proof. induction d as [|d IH|d IH|d IH|d IH|d IH|d IH|d IH|d IH|d IH|d IH];
         simpl; (split; [try reflexivity; apply IH | try reflexivity; apply IH]).
Qed.

Lemma decimal_plain (n : Z) : plainField (decimal n).
Proof.
  unfold plainField, decimal.
  assert (forall d, hasChar comma (NilZero.string_of_uint d) = false
                    /\ hasChar newline (NilZero.string_of_uint d) = false)
    as Hu.
  { intros d. destruct d; try apply digits_plain. by split. }
  destruct (Z.to_int n) as [d|d]; simpl; apply Hu.
Qed.

(** X13.  [replacer] turns a bigint into its decimal numeral, from which
    the same integer is read back, whatever its size, and returns every
    other value as it is; it never returns a bigint. *)
Theorem replacer_keeps_value (k : string) (v : JsValue) :
  match v with
  | JsBigInt n =>
      exists s, replacer k v = JsString s /\ parseDecimal s = Some n
  | _ => replacer k v = v
  end
  /\ (forall n, replacer k v <> JsBigInt n)
  /\ replacer k (replacer k v) = replacer k v.
Proof.
  split; [|split].
  - destruct v; try reflexivity.
    exists (decimal n). split; [reflexivity | apply parse_decimal].
  - intros m. destruct v; discriminate.
  - by destruct v.
Qed.

(** ** The tables *)

Lemma hasChar_append (c : ascii) (s1 s2 : string) :
  hasChar c (String.append s1 s2) = hasChar c s1 || hasChar c s2.
Proof.
  induction s1 as [|a s1 IH]; simpl; [reflexivity|].
  by rewrite IH, orb_assoc.
Qed.

Lemma splitOn_plain (c : ascii) (s : string) :
  hasChar c s = false -> splitOn c s = [s].
Proof.
  induction s as [|a s IH]; simpl; [reflexivity|].
  intros H. apply orb_false_iff in H as [Ha Hs].
  by rewrite Ha, IH.
Qed.

Lemma splitOn_append (c : ascii) (x s : string) :
  hasChar c x = false ->
  splitOn c (String.append x (String c s)) = x :: splitOn c s.
Proof.
  induction x as [|a x IH]; simpl.
  - intros _. by rewrite Ascii.eqb_refl.
  - intros H. apply orb_false_iff in H as [Ha Hx].
    by rewrite Ha, IH.
Qed.

Lemma splitOn_join (c : ascii) (xs : list string) :
  xs <> [] -> Forall (fun x => hasChar c x = false) xs ->
  splitOn c (join c xs) = xs.
Proof.
  intros Hne Hall. induction Hall as [|x xs Hx Hall IH]; [congruence|].
  destruct xs as [|y ys].
  - simpl. by apply splitOn_plain.
  - change (join c (x :: y :: ys))
      with (String.append x (String c (join c (y :: ys)))).
    rewrite splitOn_append by exact Hx. f_equal. by apply IH.
Qed.

Lemma hasChar_join (c sep : ascii) (xs : list string) :
  Ascii.eqb sep c = false ->
  Forall (fun x => hasChar c x = false) xs ->
  hasChar c (join sep xs) = false.
Proof.
  intros Hsep Hall. induction Hall as [|x xs Hx Hall IH]; [reflexivity|].
  destruct xs as [|y ys]; [exact Hx|].
  change (join sep (x :: y :: ys))
    with (String.append x (String sep (join sep (y :: ys)))).
  rewrite hasChar_append, Hx. cbn [hasChar orb]. by rewrite Hsep, IH.
Qed.

Lemma parseRawLine_rawLine (x : Recon.t) :
  hasChar comma (Recon.beneficiary x) = false ->
  parseRawLine (rawLine x) = Some x.
Proof.
  intros Hb. unfold parseRawLine, rawLine.
  rewrite splitOn_join; [|discriminate|].
  - rewrite !parse_decimal. simpl. by destruct x.
  - repeat constructor; try apply decimal_plain. exact Hb.
Qed.

Lemma rawLine_one_line (x : Recon.t) :
  hasChar newline (Recon.beneficiary x) = false ->
  hasChar newline (rawLine x) = false.
Proof.
  intros Hb. unfold rawLine. apply hasChar_join; [reflexivity|].
  repeat constructor; try apply decimal_plain. exact Hb.
Qed.

Lemma rawCsv_lines (rows : list Recon.t) :
  Forall (fun x => plainField (Recon.beneficiary x)) rows ->
  splitOn newline (rawCsv rows) = rawHeader :: map rawLine rows.
Proof.
  intros Hall. unfold rawCsv. apply splitOn_join; [discriminate|].
  constructor; [reflexivity|].
  apply List.Forall_forall. intros line Hin.
  apply in_map_iff in Hin as [x [<- Hx]].
  rewrite List.Forall_forall in Hall.
  apply rawLine_one_line, (Hall x Hx).
Qed.

Lemma parseRawCsv_rawCsv (rows : list Recon.t) :
  Forall (fun x => plainField (Recon.beneficiary x)) rows ->
  parseRawCsv (rawCsv rows) = Some rows.
Proof.
  intros Hall. unfold parseRawCsv. rewrite rawCsv_lines by exact Hall.
  rewrite String.eqb_refl.
  induction Hall as [|x rows [Hx _] Hall IH]; [reflexivity|].
  simpl. rewrite parseRawLine_rawLine by exact Hx. simpl.
  rewrite IH. reflexivity.
Qed.

(** X14.  When no beneficiary holds a comma or a line break, the detailed
    table has the header line followed by one line per row, in order, and
    the rows can be read back from it field by field, integers of any size
    included; so two different lists of rows never give the same table. *)
Theorem raw_csv_round_trip (rows : list Recon.t) :
  Forall (fun x => plainField (Recon.beneficiary x)) rows ->
  splitOn newline (rawCsv rows) = rawHeader :: map rawLine rows
  /\ parseRawCsv (rawCsv rows) = Some rows
  /\ (forall rows',
        Forall (fun x => plainField (Recon.beneficiary x)) rows' ->
        rawCsv rows = rawCsv rows' -> rows = rows').
Proof.
  intros Hall. split; [by apply rawCsv_lines|].
  split; [by apply parseRawCsv_rawCsv|].
  intros rows' Hall' Heq.
  pose proof (parseRawCsv_rawCsv rows Hall) as H1.
  pose proof (parseRawCsv_rawCsv rows' Hall') as H2.
  rewrite Heq, H2 in H1. by injection H1.
Qed.

Lemma raw_csv_round_trip_witness :
  parseRawCsv (rawCsv Fixture.finalResults) = Some Fixture.finalResults.
Proof.
  apply (raw_csv_round_trip Fixture.finalResults).
  repeat constructor.
Defined.

(** ** The ledger as an ordered object *)

Lemma obj_get_lookup (k : string) (o : JsObject.t) :
  JsObject.get k o = (list_to_map o : gmap string Z) !! k.
Proof.
  induction o as [|[k' v] o IH]; simpl; [by rewrite lookup_empty|].
  destruct (String.eqb k k') eqn:Hk.
  - apply String.eqb_eq in Hk. subst. by rewrite lookup_insert_eq.
  - apply String.eqb_neq in Hk. by rewrite lookup_insert_ne.
Qed.

Lemma obj_set_insert (k : string) (v : Z) (o : JsObject.t) :
  (list_to_map (JsObject.set k v o) : gmap string Z)
    = <[k := v]> (list_to_map o).
Proof.
  induction o as [|[k' v'] o IH]; simpl; [reflexivity|].
  destruct (String.eqb k k') eqn:Hk; simpl.
  - apply String.eqb_eq in Hk. subst. by rewrite insert_insert_eq.
  - apply String.eqb_neq in Hk. rewrite IH. by apply insert_insert_ne.
Qed.

Lemma entriesStep_agrees (acc : JsObject.t) (x : Recon.t) :
  (list_to_map (entriesStep acc x) : gmap string Z)
    = ledgerStep (list_to_map acc) x.
Proof.
  unfold entriesStep, ledgerStep. by rewrite obj_set_insert, obj_get_lookup.
Qed.

Lemma fold_entriesStep_agrees (rows : list Recon.t) :
  forall acc : JsObject.t,
    (list_to_map (fold_left entriesStep rows acc) : gmap string Z)
      = fold_left ledgerStep rows (list_to_map acc).
Proof.
  induction rows as [|x rows IH]; intros acc; simpl; [reflexivity|].
  by rewrite IH, entriesStep_agrees.
Qed.

Lemma existsb_name_In (k : string) (ks : list string) :
  existsb (String.eqb k) ks = true <-> In k ks.
Proof.
  rewrite existsb_exists. split.
  - intros [y [Hin Hy]]. apply String.eqb_eq in Hy. by subst.
  - intros Hin. exists k. split; [exact Hin | apply String.eqb_refl].
Qed.

Lemma obj_keys_set (k : string) (v : Z) (o : JsObject.t) :
  map fst (JsObject.set k v o)
    = if existsb (String.eqb k) (map fst o) then map fst o
      else map fst o ++ [k].
Proof.
  induction o as [|[k' v'] o IH]; simpl; [reflexivity|].
  destruct (String.eqb k k') eqn:Hk; simpl.
  - apply String.eqb_eq in Hk. by subst.
  - rewrite IH. by destruct (existsb (String.eqb k) (map fst o)).
Qed.

Lemma filter_both {X} (p q1 q2 : X -> bool) (l : list X) :
  (forall y, p y = q1 y && q2 y) ->
  List.filter p l = List.filter q1 (List.filter q2 l).
Proof.
  intros Hp. induction l as [|y l IH]; simpl; [reflexivity|].
  rewrite Hp. destruct (q2 y); simpl.
  - rewrite andb_true_r. destruct (q1 y); by rewrite IH.
  - rewrite andb_false_r. exact IH.
Qed.

Lemma fold_entriesStep_keys (rows : list Recon.t) :
  forall acc : JsObject.t,
    map fst (fold_left entriesStep rows acc)
      = map fst acc
        ++ List.filter (fun y => negb (existsb (String.eqb y) (map fst acc)))
             (firstSeen (map Recon.beneficiary rows)).
Proof.
  induction rows as [|x rows IH]; intros acc; simpl;
    [by rewrite app_nil_r|].
  rewrite IH. unfold entriesStep at 1 2. rewrite obj_keys_set.
  set (b := Recon.beneficiary x). set (ks := map fst acc).
  set (L := firstSeen (map Recon.beneficiary rows)).
  destruct (existsb (String.eqb b) ks) eqn:Hb; cbn [negb].
  - f_equal. apply filter_both.
    intros y. destruct (existsb (String.eqb y) ks) eqn:Hy; simpl;
      [reflexivity|].
    destruct (String.eqb y b) eqn:Hyb; [|reflexivity].
    apply String.eqb_eq in Hyb. subst y. congruence.
  - rewrite <- app_assoc. simpl. do 2 f_equal.
    apply filter_both. intros y. rewrite existsb_app. simpl.
    rewrite orb_false_r, negb_orb. reflexivity.
Qed.

Lemma firstSeen_In (l : list string) (k : string) :
  In k (firstSeen l) <-> In k l.
Proof.
  induction l as [|x l IH]; simpl; [reflexivity|].
  rewrite filter_In, IH. split.
  - intros [->|[Hin _]]; auto.
  - intros [->|Hin]; [by left|].
    destruct (String.eqb k x) eqn:Hk.
    + apply String.eqb_eq in Hk. by left.
    + right. by split.
Qed.

Lemma firstSeen_NoDup (l : list string) : List.NoDup (firstSeen l).
Proof.
  induction l as [|x l IH]; simpl; constructor.
  - rewrite filter_In. intros [_ Hx]. by rewrite String.eqb_refl in Hx.
  - by apply List.NoDup_filter.
Qed.

Lemma reimburseEntries_keys (rows : list Recon.t) :
  map fst (reimburseEntries rows)
    = firstSeen (map Recon.beneficiary (List.filter nonZero rows)).
Proof.
  unfold reimburseEntries.
  change (fun x : Recon.t => negb (Recon.delta x =? 0)) with nonZero.
  rewrite fold_entriesStep_keys. simpl.
  induction (firstSeen _) as [|y l IH]; simpl; [reflexivity|].
  by rewrite IH.
Qed.

Lemma reimburseEntries_map (rows : list Recon.t) :
  (list_to_map (reimburseEntries rows) : gmap string Z) = reimburse rows.
Proof. unfold reimburseEntries, reimburse. apply fold_entriesStep_agrees. Qed.

Lemma fmap_fst_map (o : JsObject.t) : o.*1 = map fst o.
Proof. induction o as [|p o IH]; simpl; [reflexivity | by rewrite <- IH]. Qed.

Lemma reimburseEntries_NoDup (rows : list Recon.t) :
  NoDup (reimburseEntries rows).*1.
Proof.
  rewrite fmap_fst_map, reimburseEntries_keys.
  apply NoDup_ListNoDup, firstSeen_NoDup.
Qed.

(** X15.  [Object.entries(reimburse)] lists each beneficiary of the ledger
    once, with the ledger's amount, in the order in which the beneficiaries
    first occur among the rows with a non-zero delta. *)
Theorem ledger_entries (rows : list Recon.t) :
  map fst (reimburseEntries rows)
    = firstSeen (map Recon.beneficiary (List.filter nonZero rows))
  /\ List.NoDup (map fst (reimburseEntries rows))
  /\ (forall b v,
        In (b, v) (reimburseEntries rows) <-> reimburse rows !! b = Some v)
  /\ length (reimburseEntries rows) = size (reimburse rows).
Proof.
  split; [apply reimburseEntries_keys|].
  split; [rewrite reimburseEntries_keys; apply firstSeen_NoDup|].
  split.
  - intros b v. rewrite <- reimburseEntries_map, <- list_elem_of_In.
    apply elem_of_list_to_map, reimburseEntries_NoDup.
  - rewrite <- reimburseEntries_map. symmetry.
    apply map_size_list_to_map, reimburseEntries_NoDup.
Qed.

Lemma ledgerLine_fields (entry : string * Z) :
  hasChar comma (fst entry) = false ->
  splitOn comma (ledgerLine entry) = [fst entry; decimal (snd entry)].
Proof.
  intros Hb. unfold ledgerLine. apply splitOn_join; [discriminate|].
  repeat constructor; [exact Hb | apply decimal_plain].
Qed.

(** X16.  When no beneficiary holds a comma or a line break, the ledger
    table has the header line followed by one line per beneficiary of the
    ledger, as many lines as the ledger has keys plus one, and each line
    splits into the beneficiary and the decimal numeral of its amount. *)
Theorem reimburse_csv_lines (rows : list Recon.t) :
  Forall (fun x => plainField (Recon.beneficiary x)) rows ->
  splitOn newline (reimburseCsv rows)
    = "beneficiary,amount" :: map ledgerLine (reimburseEntries rows)
  /\ length (splitOn newline (reimburseCsv rows)) = S (size (reimburse rows))
  /\ (forall b v,
        reimburse rows !! b = Some v ->
        In (ledgerLine (b, v)) (splitOn newline (reimburseCsv rows))
        /\ splitOn comma (ledgerLine (b, v)) = [b; decimal v]
        /\ parseDecimal (decimal v) = Some v).
Proof.
  intros Hall.
  assert (forall b v, In (b, v) (reimburseEntries rows) -> plainField b)
    as Hplain.
  { intros b v Hin.
    assert (In b (map fst (reimburseEntries rows))) as Hk
      by (apply in_map_iff; by exists (b, v)).
    rewrite reimburseEntries_keys, firstSeen_In in Hk.
    apply in_map_iff in Hk as [x [<- Hx]].
    apply filter_In in Hx as [Hx _].
    rewrite List.Forall_forall in Hall. by apply Hall. }
  assert (splitOn newline (reimburseCsv rows)
          = "beneficiary,amount" :: map ledgerLine (reimburseEntries rows))
    as Hlines.
  { unfold reimburseCsv. apply splitOn_join; [discriminate|].
    constructor; [reflexivity|].
    apply List.Forall_forall. intros line Hin.
    apply in_map_iff in Hin as [[b v] [<- Hin]].
    unfold ledgerLine. apply hasChar_join; [reflexivity|].
    repeat constructor; [apply (Hplain b v Hin) | apply decimal_plain]. }
  split; [exact Hlines|]. split.
  - rewrite Hlines. simpl. rewrite length_map. f_equal.
    rewrite <- reimburseEntries_map. symmetry.
    apply map_size_list_to_map, reimburseEntries_NoDup.
  - intros b v Hb.
    assert (In (b, v) (reimburseEntries rows)) as Hin.
    { rewrite <- reimburseEntries_map in Hb.
      apply list_elem_of_In.
      by apply elem_of_list_to_map; [apply reimburseEntries_NoDup|]. }
    split; [|split].
    + rewrite Hlines. right. apply in_map_iff. by exists (b, v).
    + apply (ledgerLine_fields (b, v)), (Hplain b v Hin).
    + apply parse_decimal.
Qed.

Lemma reimburse_csv_lines_witness :
  splitOn newline (reimburseCsv Fixture.finalResults)
    = ["beneficiary,amount"; "addrA,50"; "addrC,30"].
Proof.
  rewrite (proj1 (reimburse_csv_lines Fixture.finalResults
                    ltac:(repeat constructor))).
  reflexivity.
Defined.

(** ** The JSON files *)

Lemma walk_rows (rep : string -> JsValue -> JsValue) (rows : list Recon.t)
    (written : Recon.t -> JsValue) :
  (forall k x, stringifyWalk 2 rep k (rowValue x) = Some (Ok (written x))) ->
  forall i,
    walkAll (stringifyWalk 2 rep) (indexed i (map rowValue rows))
      = Some (Ok (indexed i (map written rows))).
Proof.
  intros Hrow. induction rows as [|x rows IH]; intros i; [reflexivity|].
  cbn [map indexed walkAll]. by rewrite Hrow, IH.
Qed.

Lemma snd_indexed (i : Z) (items : list JsValue) :
  map snd (indexed i items) = items.
Proof.
  revert i. induction items as [|v items IH]; intros i; simpl;
    [reflexivity | by rewrite IH].
Qed.

Lemma walk_ledger (o : JsObject.t) :
  walkAll (stringifyWalk 1 replacer)
    (map (fun entry => (fst entry, JsBigInt (snd entry))) o)
    = Some (Ok (map (fun entry => (fst entry, JsString (decimal (snd entry)))) o)).
Proof.
  induction o as [|[b v] o IH]; [reflexivity|].
  cbn [map walkAll fst snd]. rewrite IH. reflexivity.
Qed.

(** X17.  [JSON.stringify] with [replacer] never meets a bigint in the
    rows or in the ledger: it writes every row with its three amounts as
    decimal numerals and the ledger with one decimal numeral per
    beneficiary, whatever the size of the amounts.  Without the replacer
    the first row would already raise a [TypeError]. *)
Theorem json_files_written (rows : list Recon.t) :
  stringifyWalk 3 replacer "" (finalResultsValue rows)
    = Some (Ok (JsArray (map rowWritten rows)))
  /\ stringifyWalk 2 replacer "" (reimburseValue rows)
     = Some (Ok (reimburseWritten rows))
  /\ (rows <> [] ->
      stringifyWalk 3 (fun _ v => v) "" (finalResultsValue rows)
        = Some (Throw TypeError)).
Proof.
  split; [|split].
  - unfold finalResultsValue. cbn [stringifyWalk replacer].
    rewrite (walk_rows replacer rows rowWritten); [|reflexivity].
    by rewrite snd_indexed.
  - unfold reimburseValue, reimburseWritten. cbn [stringifyWalk replacer].
    by rewrite walk_ledger.
  - intros Hne. destruct rows as [|x rows]; [congruence|]. reflexivity.
Qed.

Lemma json_files_written_witness :
  stringifyWalk 2 replacer "" (reimburseValue Fixture.finalResults)
    = Some (Ok (JsObject [ ("addrA", JsString "50"); ("addrC", JsString "30") ])).
Proof.
  rewrite (proj1 (proj2 (json_files_written Fixture.finalResults))).
  reflexivity.
Defined.

(** ** Where scan and replay can fail *)



Lemma replayEra_Throw (B : Backend) (runtime : string) (tc : option string)
    (e block : Z) (err : Error) :
  effResult (replayEra B runtime tc e block) = Throw err ->
  ensureHasEvent (events (forkApi B (producedFork B runtime tc block)))
    = Throw err
  \/ (ensureHasEvent (events (forkApi B (producedFork B runtime tc block)))
        = Ok tt
      /\ extractRewards (forkApi B (producedFork B runtime tc block)) e
         = Throw err).
Proof.
  rewrite replayEra_unfold. cbv zeta.
  destruct (ensureHasEvent _) as [[]|err']; simpl.
  - destruct (extractRewards _ e) as [dr|err']; simpl; [discriminate|].
    intros [= <-]. right. by split.
  - intros [= <-]. by left.
Qed.

Lemma replayLoop_Throw (B : Backend) (runtime : string) (err : Error)
    (blocks : list (Z * Z)) :
  forall tc expectedTiers,
    snd (replayLoop B runtime tc expectedTiers blocks) = Throw err ->
    exists e block tc',
      In (e, block) blocks
      /\ (ensureHasEvent
            (events (forkApi B (producedFork B runtime tc' block))) = Throw err
          \/ (ensureHasEvent
                (events (forkApi B (producedFork B runtime tc' block))) = Ok tt
              /\ extractRewards
                   (forkApi B (producedFork B runtime tc' block)) e
                 = Throw err)).
Proof.
  induction blocks as [|[e block] rest IH]; intros tc expectedTiers H;
    [discriminate|].
  rewrite replayLoop_cons in H. cbv zeta in H.
  destruct (effResult (replayEra B runtime tc e block))
    as [[read dr]|err'] eqn:Hres.
  - specialize (IH (Some read) (JsMap.set e dr expectedTiers)).
    destruct (replayLoop B runtime (Some read)
                (JsMap.set e dr expectedTiers) rest) as [logs r].
    simpl in H, IH. destruct (IH H) as [e' [block' [tc' [Hin Hcase]]]].
    exists e', block', tc'. split; [by right | exact Hcase].
  - simpl in H. injection H as <-.
    apply replayEra_Throw in Hres.
    exists e, block, tc. split; [by left | exact Hres].
Qed.

(** X19.  A replay that fails does so on the fork of one of the boundaries
    of [blocks]: either the era-advance check failed on that fork, or it
    passed and the extraction failed there; nothing else in the replay
    throws. *)
Theorem reconciler_failure_cause (B : Backend) (runtime : string)
    (blocks : JsMap.t Z) (err : Error) :
  snd (reconciler B runtime blocks) = Throw err ->
  exists e block tc,
    In (e, block) blocks
    /\ (ensureHasEvent
          (events (forkApi B (producedFork B runtime tc block))) = Throw err
        \/ (ensureHasEvent
              (events (forkApi B (producedFork B runtime tc block))) = Ok tt
            /\ extractRewards
                 (forkApi B (producedFork B runtime tc block)) e
               = Throw err)).
Proof. unfold reconciler. apply replayLoop_Throw. Qed.

Lemma reconciler_failure_cause_witness :
  exists e block tc,
    In (e, block)
       [(1, Fixture.boundary 1); (2, Fixture.boundary 2); (3, Fixture.boundary 3)]
    /\ ensureHasEvent
         (events (forkApi Fixture.failingBackend
                    (producedFork Fixture.failingBackend "0xc0de" tc block)))
       = Throw (ErrorMsg "Missing dappStaking::NewEra event").
Proof.
  destruct (reconciler_failure_cause Fixture.failingBackend "0xc0de"
              [(1, Fixture.boundary 1); (2, Fixture.boundary 2);
               (3, Fixture.boundary 3)]
              (ErrorMsg "Missing dappStaking::NewEra event")
              ltac:(vm_compute; reflexivity))
    as [e [block [tc [Hin [Hev|[_ Hex]]]]]].
  - by exists e, block, tc.
  - exfalso.
    assert (forall view k,
               extractRewards view k
               <> Throw (ErrorMsg "Missing dappStaking::NewEra event"))
      as Hno.
    { intros view k. unfold extractRewards.
      destruct (dAppTiers view k) as [t|]; [|discriminate].
      generalize (@JsMap.empty Reward).
      induction (dapps t) as [|[d tier] entries IH]; intros acc; simpl;
        [discriminate|].
      destruct (find _ _); [apply IH | discriminate]. }
    exact (Hno _ _ Hex).
Defined.


Lemma merge_characterised_witness :
  Forall2 (rowFor Fixture.actualTiers) (visits Fixture.expectedTiers)
    Fixture.finalResults.
Proof.
  apply (proj1 (merge_characterised Fixture.expectedTiers Fixture.actualTiers
                  Fixture.finalResults)).
  reflexivity.
Defined.

Lemma replacer_keeps_value_witness :
  exists s,
    replacer "delta" (JsBigInt 340282366920938463463374607431768211455)
      = JsString s
    /\ parseDecimal s = Some 340282366920938463463374607431768211455.
Proof.
  exact (proj1 (replacer_keeps_value "delta"
                  (JsBigInt 340282366920938463463374607431768211455))).
Defined.

Lemma ledger_entries_witness :
  map fst (reimburseEntries Fixture.finalResults) = ["addrA"; "addrC"]
  /\ length (reimburseEntries Fixture.finalResults)
     = size (reimburse Fixture.finalResults).
Proof.
  destruct (ledger_entries Fixture.finalResults) as [Hkeys [_ [_ Hsize]]].
  split; [rewrite Hkeys; reflexivity | exact Hsize].
Defined.

(** ** From the chain and the forks to the rows *)

Lemma In_get_NoDup {V} (k : Z) (v : V) (m : JsMap.t V) :
  List.NoDup (JsMap.keys m) -> In (k, v) m -> JsMap.get k m = Some v.
Proof.
  induction m as [|[k' v'] m IH]; intros Hnd Hin; [destruct Hin|].
  simpl in Hnd. inversion Hnd as [|? ? Hk Hnd']; subst. simpl.
  destruct Hin as [Heq|Hin].
  - injection Heq as -> ->. by rewrite Z.eqb_refl.
  - destruct (k =? k') eqn:Hkk; [|by apply IH].
    apply Z.eqb_eq in Hkk. subst k'. destruct Hk.
    unfold JsMap.keys. apply in_map_iff. by exists (k, v).
Qed.

Lemma main_Ok (chain : Chain) (B : Backend) (fuel : nat) (run : Run)
    (rows : list Recon.t) :
  main chain B fuel = Some run ->
  written run = fourFiles rows ->
  exists blocks actualTiers expectedTiers,
    scanner chain fuel = Some (Ok (blocks, actualTiers))
    /\ snd (reconciler B (toHex (code (chain END_BLOCK))) blocks)
       = Ok expectedTiers
    /\ merge expectedTiers actualTiers = Ok rows.
Proof.
  unfold main. intros H Hw.
  destruct (scanner chain fuel) as [[[blocks actualTiers]|err]|];
    [|injection H as <-; discriminate Hw|discriminate H].
  destruct (reconciler B _ blocks) as [logs [expectedTiers|err]] eqn:Hrep;
    [|injection H as <-; discriminate Hw].
  unfold aggregator in H.
  destruct (merge expectedTiers actualTiers) as [rows'|err] eqn:Hm;
    injection H as <-; simpl in Hw; [|discriminate Hw].
  injection Hw as Hrows _. subst rows'.
  exists blocks, actualTiers, expectedTiers.
  split; [reflexivity|]. split; [by rewrite Hrep | exact Hm].
Qed.

(** X20.  In a run of [main] that wrote its files, every row goes back to
    one boundary block: its expected side is a record of the set extracted
    on the fork produced for that block under the runtime taken at
    [END_BLOCK], its actual side is the record the same recipient has in
    the set extracted on the live chain at that very block, and its delta
    is the difference of the two rewards. *)
Theorem rows_traced_to_chain_and_fork (chain : Chain) (B : Backend)
    (fuel : nat) (run : Run) (rows : list Recon.t) :
  main chain B fuel = Some run ->
  written run = fourFiles rows ->
  forall row,
    In row rows ->
    exists block tc onFork onChain x a,
      extractRewards
        (forkApi B (producedFork B (toHex (code (chain END_BLOCK))) tc block))
        (Recon.era row) = Ok onFork
      /\ extractRewards (chain block) (Recon.era row) = Ok onChain
      /\ In (Recon.dapp_id row, x) onFork
      /\ JsMap.get (Recon.dapp_id row) onChain = Some a
      /\ Recon.beneficiary row = beneficiary x
      /\ Recon.expected_tier row = tierId x /\ Recon.actual_tier row = tierId a
      /\ Recon.expected_reward row = reward x
      /\ Recon.actual_reward row = reward a
      /\ Recon.delta row = reward x - reward a.
Proof.
  intros Hmain Hw row Hin.
  destruct (main_Ok chain B fuel run rows Hmain Hw)
    as [blocks [actualTiers [expectedTiers [Hscan [Hrep Hm]]]]].
  unfold scanner in Hscan.
  apply (scanLoop_invariants chain
           (nextEraStart (activeProtocolState (chain START_BLOCK)))) in Hscan
    as [Hrec [Hnd _]]; [|constructor|constructor|constructor|by left].
  simpl in Hrec, Hnd.
  unfold reconciler in Hrep.
  apply (replayLoop_Ok B _ blocks) in Hrep as [Hall _]; [|auto|constructor].
  apply merge_Ok in Hm.
  destruct (Forall2_In_r _ _ _ _ Hm Hin) as [[[e r] x] [Hv Hrow]].
  destruct Hrow as [ofEra [a [He [Hr [_ ->]]]]]. simpl.
  unfold visits in Hv. apply in_flat_map in Hv as [[e' dapps] [Hexp Hv]].
  apply in_map_iff in Hv as [[r' x'] [Heq Hrx]].
  injection Heq as -> -> ->.
  rewrite List.Forall_forall in Hall.
  destruct (Hall _ Hexp) as [block [tc [Hblock [_ Hfork]]]].
  simpl in Hblock, Hfork.
  pose proof (In_get_NoDup _ _ _ Hnd Hblock) as Hget.
  destruct (Forall2_get _ _ _ _ _ (recordedAt_key chain) Hrec Hget)
    as [dr [Hdr [_ [_ Hchain]]]].
  simpl in Hchain. rewrite He in Hdr. injection Hdr as <-.
  exists block, tc, dapps, ofEra, x, a. by repeat split.
Qed.

Lemma main_writes (chain : Chain) (B : Backend) (fuel : nat) (run : Run)
    (t : Z) :
  main chain B fuel = Some run -> outcome run = Ok t ->
  exists rows, written run = fourFiles rows.
Proof.
  unfold main. intros H Hok.
  destruct (scanner chain fuel) as [[[blocks actualTiers]|err]|];
    [|injection H as <-; discriminate Hok|discriminate H].
  destruct (reconciler B _ blocks) as [logs [expectedTiers|err]];
    [|injection H as <-; discriminate Hok].
  unfold aggregator in H.
  destruct (merge expectedTiers actualTiers) as [rows|err];
    injection H as <-; simpl in Hok; [|discriminate Hok].
  by exists rows.
Qed.

Lemma rows_traced_to_chain_and_fork_witness :
  exists run rows,
    main Fixture.chain Fixture.backend 5 = Some run
    /\ written run = fourFiles rows
    /\ forall row,
         In row rows ->
         Recon.delta row = Recon.expected_reward row - Recon.actual_reward row.
Proof.
  destruct (main Fixture.chain Fixture.backend 5) as [run|] eqn:Hmain;
    [|vm_compute in Hmain; discriminate Hmain].
  assert (outcome run = Ok 0) as Hok
    by (vm_compute in Hmain; injection Hmain as <-; reflexivity).
  destruct (main_writes _ _ _ _ _ Hmain Hok) as [rows Hw].
  exists run, rows. split; [reflexivity|]. split; [exact Hw|].
  intros row Hin.
  destruct (rows_traced_to_chain_and_fork Fixture.chain Fixture.backend 5
              run rows Hmain Hw row Hin)
    as [block [tc [onFork [onChain [x [a H]]]]]].
  destruct H as [_ [_ [_ [_ [_ [_ [_ [-> [-> ->]]]]]]]]]. reflexivity.
Defined.
